(** * Portfolio tracker: the insights engine

    A shallow embedding of the two copies of the insights engine of the
    portfolio tracker:

    - [src/web/services/insightsEngine.ts] (browser side, [computeInsights]),
    - the main-process [insightsEngine.ts] ([generateInsights]),

    together with the payoff simulator [estimatePayoffMonths] both copies
    carry (the two texts of the simulator are identical, statement for
    statement, so it is embedded once).

    Numbers.  A JavaScript [number] is embedded as a rational ([Q]).
    Comparisons, [Math.min] and [Math.max] are exact on such numbers.
    Arithmetic comes in two readings.  Where the outcome of a rule depends
    on the last bits of a result, the operations are the machine's, rounded
    to binary64 ([Binary64]), and the fields they take are read as the
    machine holds them ([Binary64.read]: an amount typed as 20.40 is the
    binary64 number nearest to it): the bound of the minimum-payment rule,
    the annualized return and the rates compared with it, the simulator of
    [Payoff64] and the totals of [Totals64].
    Elsewhere the operations are the exact ones: the properties proved of
    those definitions are about control flow, signs, orderings and the
    agreement of computations made of the same operations in the same
    order.  Equality of computed amounts is [Qeq] ([==]), which every
    comparison respects.

    Arrays.  [balances], [rates] and [mins] of the simulator are arrays
    indexed by [i]; they are embedded as lists read with [getQ] and written
    with [setQ] (stdpp's [<[i:=x]>]).  All three are [map]s of the same
    [debts] array, so every index the loops use is in range.  A number
    stored in [balances] or in [budget] is stored in lowest terms ([Qred]),
    which does not change it and lets long simulations be evaluated. *)

From Stdlib Require Import QArith Qround Qpower Qminmax Lqa Lia List String.
From Stdlib Require Import Bool.
From Stdlib Require Import Permutation Sorted Ascii.
From stdpp Require Import base list.
Import ListNotations.

Local Open Scope string_scope.
Local Open Scope list_scope.
Local Open Scope Q_scope.

(** ** JavaScript numbers as rationals *)

(** [x <= y] and [x < y] as the tests the code branches on. *)
Definition leb (x y : Q) : bool := Qle_bool x y.
Definition ltb (x y : Q) : bool := negb (Qle_bool y x).

(** [Math.min(a, b, c)]. *)
Definition min3 (a b c : Q) : Q := Qmin (Qmin a b) c.

(** [arr[i]] for an index in range (the default is never returned by the
    loops below, whose indices run over [0 .. length - 1]). *)
Definition getQ (l : list Q) (i : nat) : Q := nth i l 0.

(** [arr[i] = v].  The stored number is kept in lowest terms ([Qred v] is
    the same rational as [v]), so that a simulation of many months can be
    evaluated; outside the array the update does nothing, and the loops
    never write there. *)
Definition setQ (l : list Q) (i : nat) (v : Q) : list Q := <[i := Qred v]> l.

(** [arr.reduce((s, x) => s + f(x), 0)]. *)
Definition sumBy {A : Type} (f : A -> Q) (l : list A) : Q :=
  fold_left (fun s x => s + f x) l 0.

(** ** Binary64 arithmetic

    A JavaScript [number] is an IEEE 754 binary64 value and [+], [-], [*]
    and [/] return the binary64 number nearest to the exact result, ties
    going to the even significand.  [Binary64.round] is that rounding on
    the rationals (53 significant bits, exponents from -1022, subnormal
    numbers below); the four operations are the exact ones followed by
    it, and a decimal literal such as [1.05] is [read (105 # 100)].
    Infinities, NaN and the sign of zero are not represented: the
    operations are the machine's for operands and results below [2^1024]
    in magnitude. *)

Module Binary64.

(** The exponent of a positive rational: [2^e <= a < 2^(e + 1)]. *)
Definition magnitude (a : Q) : Z :=
  let e := (Z.log2 (Qnum a) - Z.log2 (Zpos (Qden a)))%Z in
  if Qle_bool (2 ^ e) a then e else (e - 1)%Z.

(** The nearest integer, the even one of the two when [y] is half way. *)
Definition nearestEven (y : Q) : Z :=
  let f := Qfloor y in
  match Qcompare (y - inject_Z f) (1 # 2) with
  | Lt => f
  | Gt => (f + 1)%Z
  | Eq => if Z.even f then f else (f + 1)%Z
  end.

(** A positive rational to the nearest multiple of [2^(e - 52)]. *)
Definition roundPos (a : Q) : Q :=
  let e := Z.max (magnitude a) (-1022) in
  inject_Z (nearestEven (a * 2 ^ (52 - e))) * 2 ^ (e - 52).

Definition round (x : Q) : Q :=
  let x' := Qred x in
  match Qnum x' with
  | Z0 => 0
  | Zpos _ => Qred (roundPos x')
  | Zneg _ => Qred (- roundPos (- x'))
  end.

(** A field of a record or a numeric literal as the machine holds it: an
    amount typed as [20.40] is read as the binary64 number nearest to it
    (a binary64 number is read as itself). *)
Definition read (x : Q) : Q := round x.

Definition add (x y : Q) : Q := round (x + y).
Definition sub (x y : Q) : Q := round (x - y).
Definition mul (x y : Q) : Q := round (x * y).
Definition div (x y : Q) : Q := round (x / y).

(** [arr.reduce((s, x) => s + f(x), 0)] as the machine adds. *)
Definition sum {A : Type} (f : A -> Q) (l : list A) : Q :=
  fold_left (fun s x => add s (f x)) l 0.

End Binary64.

(** ** The payoff simulator *)

(** An entry of the [debts] argument of [estimatePayoffMonths], which is
    also an entry of [DebtPayoffPlan.order]. *)
Module DebtItem.
Record t : Type := mk {
  name : string;
  balance : Q;
  rate : Q;
  minimumPayment : Q
}.
End DebtItem.

Module Payoff.

(** The state of one month of the simulation: the [balances] array and
    the [budget] variable. *)
Definition State : Type := (list Q * Q)%type.

Definition MAX_MONTHS : nat := 600.

(** [0.01], the threshold under which the debts count as paid. *)
Definition EPSILON : Q := 1 # 100.

(** [balances.reduce((s, b) => s + Math.max(b, 0), 0)]. *)
Definition totalRemaining (balances : list Q) : Q :=
  sumBy (fun b => Qmax b 0) balances.

(** Body of the interest loop:
    [if (balances[i] > 0) balances[i] += balances[i] * rates[i]]. *)
Definition accrueAt (rates : list Q) (balances : list Q) (i : nat) : list Q :=
  if ltb 0 (getQ balances i)
  then setQ balances i (getQ balances i + getQ balances i * getQ rates i)
  else balances.

(** The interest loop, run for [i = 0 .. n - 1]. *)
Definition accrueLoop (rates : list Q) (n : nat) (balances : list Q) : list Q :=
  fold_left (accrueAt rates) (seq 0 n) balances.

(** Body of the minimum-payment loop:
    [if (balances[i] <= 0) continue;
     minPay = Math.min(mins[i], balances[i], budget);
     balances[i] -= minPay; budget -= minPay]. *)
Definition payMinAt (mins : list Q) (st : State) (i : nat) : State :=
  let '(balances, budget) := st in
  if leb (getQ balances i) 0 then st
  else
    let minPay := min3 (getQ mins i) (getQ balances i) budget in
    (setQ balances i (getQ balances i - minPay), Qred (budget - minPay)).

(** The minimum-payment loop, run for [i = 0 .. n - 1]. *)
Definition payMinLoop (mins : list Q) (n : nat) (st : State) : State :=
  fold_left (payMinAt mins) (seq 0 n) st.

(** The extra-payment loop over the indices [idxs]: the first debt with a
    positive balance receives [Math.min(balances[i], budget)], then the loop
    [break]s. *)
Fixpoint payExtraLoop (idxs : list nat) (st : State) : State :=
  match idxs with
  | [] => st
  | i :: idxs' =>
      let '(balances, budget) := st in
      if leb (getQ balances i) 0 then payExtraLoop idxs' st
      else
        let extra := Qmin (getQ balances i) budget in
        (setQ balances i (getQ balances i - extra), Qred (budget - extra))
  end.

(** [if (budget > 0) { for ... }]. *)
Definition payExtra (st : State) : State :=
  if ltb 0 (snd st) then payExtraLoop (seq 0 (length (fst st))) st else st.

(** One iteration of the [while] loop after [months++]: interest, then
    the minimum payments out of a fresh [budget], then the extra payment. *)
Definition monthStep (rates mins : list Q) (totalMonthlyPayment : Q)
    (balances : list Q) : list Q :=
  let accrued := accrueLoop rates (length balances) balances in
  let paid := payMinLoop mins (length accrued) (accrued, totalMonthlyPayment) in
  fst (payExtra paid).

(** The [while (months < MAX_MONTHS)] loop; [fuel] is
    [MAX_MONTHS - months], the number of iterations the loop condition
    still allows. *)
Fixpoint payoffLoop (rates mins : list Q) (totalMonthlyPayment : Q)
    (fuel months : nat) (balances : list Q) : nat :=
  match fuel with
  | O => months
  | S fuel' =>
      if leb (totalRemaining balances) EPSILON then months
      else payoffLoop rates mins totalMonthlyPayment fuel' (S months)
             (monthStep rates mins totalMonthlyPayment balances)
  end.

(** [debts.map(d => d.rate / 100 / 12)]. *)
Definition monthlyRates (debts : list DebtItem.t) : list Q :=
  map (fun d => DebtItem.rate d / 100 / 12) debts.

Definition estimatePayoffMonths (debts : list DebtItem.t)
    (totalMonthlyPayment : Q) : nat :=
  if (length debts =? 0)%nat || leb totalMonthlyPayment 0 then O
  else
    payoffLoop (monthlyRates debts) (map DebtItem.minimumPayment debts)
      totalMonthlyPayment MAX_MONTHS 0 (map DebtItem.balance debts).

(** The [balances] array at the top of the loop once [k] months have been
    simulated (whether or not the loop of [estimatePayoffMonths] gets that
    far). *)
Definition balancesAfter (debts : list DebtItem.t) (totalMonthlyPayment : Q)
    (k : nat) : list Q :=
  Nat.iter k
    (monthStep (monthlyRates debts) (map DebtItem.minimumPayment debts)
       totalMonthlyPayment)
    (map DebtItem.balance debts).

(** The total stays above the threshold at the start of each of the next
    [n] months ([step] is one month). *)
Fixpoint staysAbove (step : list Q -> list Q) (n : nat) (balances : list Q)
    : bool :=
  match n with
  | O => true
  | S n' =>
      ltb EPSILON (totalRemaining balances)
      && staysAbove step n' (step balances)
  end.

End Payoff.

(** ** The payoff simulator as the machine runs it

    The same statements with every [+=], [-=] and [*] rounded to binary64
    and the literal [0.01] read as the binary64 number nearest to it.
    [Payoff] above is the simulator over exact numbers, which is what the
    properties of its control flow, signs and monotonicity are proved of;
    this module is what is evaluated when a count of months depends on
    the last bits. *)

Module Payoff64.

Definition State : Type := (list Q * Q)%type.

Definition MAX_MONTHS : nat := 600.

(** [0.01]. *)
Definition EPSILON : Q := Binary64.read (1 # 100).

(** [balances.reduce((s, b) => s + Math.max(b, 0), 0)]. *)
Definition totalRemaining (balances : list Q) : Q :=
  Binary64.sum (fun b => Qmax b 0) balances.

(** [if (balances[i] > 0) balances[i] += balances[i] * rates[i]]. *)
Definition accrueAt (rates : list Q) (balances : list Q) (i : nat) : list Q :=
  if ltb 0 (getQ balances i)
  then setQ balances i
         (Binary64.add (getQ balances i)
            (Binary64.mul (getQ balances i) (getQ rates i)))
  else balances.

Definition accrueLoop (rates : list Q) (n : nat) (balances : list Q) : list Q :=
  fold_left (accrueAt rates) (seq 0 n) balances.

(** [if (balances[i] <= 0) continue;
     minPay = Math.min(mins[i], balances[i], budget);
     balances[i] -= minPay; budget -= minPay]. *)
Definition payMinAt (mins : list Q) (st : State) (i : nat) : State :=
  let '(balances, budget) := st in
  if leb (getQ balances i) 0 then st
  else
    let minPay := min3 (getQ mins i) (getQ balances i) budget in
    (setQ balances i (Binary64.sub (getQ balances i) minPay),
     Binary64.sub budget minPay).

Definition payMinLoop (mins : list Q) (n : nat) (st : State) : State :=
  fold_left (payMinAt mins) (seq 0 n) st.

(** The extra-payment loop: the first debt with a positive balance
    receives [Math.min(balances[i], budget)], then the loop [break]s. *)
Fixpoint payExtraLoop (idxs : list nat) (st : State) : State :=
  match idxs with
  | [] => st
  | i :: idxs' =>
      let '(balances, budget) := st in
      if leb (getQ balances i) 0 then payExtraLoop idxs' st
      else
        let extra := Qmin (getQ balances i) budget in
        (setQ balances i (Binary64.sub (getQ balances i) extra),
         Binary64.sub budget extra)
  end.

(** [if (budget > 0) { for ... }]. *)
Definition payExtra (st : State) : State :=
  if ltb 0 (snd st) then payExtraLoop (seq 0 (length (fst st))) st else st.

Definition monthStep (rates mins : list Q) (totalMonthlyPayment : Q)
    (balances : list Q) : list Q :=
  let accrued := accrueLoop rates (length balances) balances in
  let paid := payMinLoop mins (length accrued) (accrued, totalMonthlyPayment) in
  fst (payExtra paid).

Fixpoint payoffLoop (rates mins : list Q) (totalMonthlyPayment : Q)
    (fuel months : nat) (balances : list Q) : nat :=
  match fuel with
  | O => months
  | S fuel' =>
      if leb (totalRemaining balances) EPSILON then months
      else payoffLoop rates mins totalMonthlyPayment fuel' (S months)
             (monthStep rates mins totalMonthlyPayment balances)
  end.

(** [debts.map(d => d.rate / 100 / 12)]. *)
Definition monthlyRates (debts : list DebtItem.t) : list Q :=
  map (fun d =>
         Binary64.div (Binary64.div (Binary64.read (DebtItem.rate d)) 100) 12)
    debts.

(** The fields of the debts and the budget are read as the machine holds
    them. *)
Definition estimatePayoffMonths (debts : list DebtItem.t)
    (totalMonthlyPayment : Q) : nat :=
  let budget := Binary64.read totalMonthlyPayment in
  if (length debts =? 0)%nat || leb budget 0 then O
  else
    payoffLoop (monthlyRates debts)
      (map (fun d => Binary64.read (DebtItem.minimumPayment d)) debts)
      budget MAX_MONTHS 0
      (map (fun d => Binary64.read (DebtItem.balance d)) debts).

End Payoff64.

(** ** The snapshot *)

Inductive DebtType : Type :=
  | credit_card | student_loan | auto_loan | personal_loan
  | mortgage | medical | other.

Definition DebtType_eqb (a b : DebtType) : bool :=
  match a, b with
  | credit_card, credit_card | student_loan, student_loan
  | auto_loan, auto_loan | personal_loan, personal_loan
  | mortgage, mortgage | medical, medical | other, other => true
  | _, _ => false
  end.

Module RealEstateHolding.
Record t : Type := mk {
  estimatedValue : Q;
  mortgageBalance : Q;
  monthlyMortgagePayment : option Q
}.
End RealEstateHolding.

(** [createdAt] is kept as [new Date(st.createdAt).getTime()], the
    milliseconds the engine reads from it. *)
Module StockHolding.
Record t : Type := mk {
  shares : Q;
  costBasisPerShare : Q;
  currentPrice : option Q;
  createdAt : Q
}.
End StockHolding.

Module CryptoHolding.
Record t : Type := mk {
  quantity : Q;
  costBasisPerUnit : Q;
  currentPrice : option Q
}.
End CryptoHolding.

Module RetirementAccount.
Record t : Type := mk {
  balance : Q
}.
End RetirementAccount.

Module DebtLiability.
Record t : Type := mk {
  name : string;
  debtType : DebtType;
  currentBalance : Q;
  interestRate : Q;
  minimumPayment : Q;
  monthlyPayment : option Q
}.
End DebtLiability.

(** What the engine reads from its host: [Date.now()] in milliseconds
    and [Math.pow], whose results are in general irrational and are left
    to the host. *)
Record Env : Type := mkEnv {
  now : Q;
  pow : Q -> Q -> Q
}.

(** ** The report *)

(** The title, description and impact of an insight are template strings;
    an [InsightText] names the template and carries the values the code
    interpolates into it (the formatting of the numbers is not modelled). *)
Inductive InsightText : Type :=
  | BadVsGoodDebt (bad good badMonthly goodMonthly : Q)
  | AllDebtHighCost (bad badMonthly : Q)
  | OnlyGoodDebt (good goodMonthly : Q)
  | HighInterestDebt (total : Q) (debts : list (string * Q))
      (monthlyInterest : Q)
  | MinimumsOnly (names : list string)
  | AnnualInterest (annual : Q)
  | DebtExceedsReturns (annualizedReturnPct : Q) (debts : list (string * Q))
  | CreditCardWhileInvesting (ccTotal avgCCRate : Q)
  | DebtToAssetRatio (ratio : Q)
  | CryptoConcentration (pct : Q)
  | StockConcentration (pct : Q)
  | LimitedEmergencyBuffer (liquidAssets monthsCovered : Q)
  | YearsToRetirement (age years : Z) (retirement : Q)
  | AgeAppropriateRisk (age : Z) (pct : Q)
  | HighEquityExposure (age : Z) (pct : Q)
  | DebtFree (netWorth : Q)
  | RetirementShare (pct retirement : Q).

(** [id] is the value of [counter] in [`insight-${++counter}`]; [category]
    and [severity] are the strings the object literal carries at run
    time. *)
Record Insight : Type := mkInsight {
  id : nat;
  category : string;
  severity : string;
  text : InsightText
}.

(** The declared type of [Insight.category] and of [Insight.severity]. *)
Definition categories : list string :=
  ["debt_payoff"; "leverage"; "portfolio_health"; "cash_flow"; "opportunity"].

Definition severities : list string :=
  ["info"; "warning"; "critical"; "positive"].

Definition inList (x : string) (l : list string) : bool :=
  existsb (String.eqb x) l.

Module Method.
Inductive t : Type := avalanche | snowball.
End Method.

Record DebtPayoffPlan : Type := mkPlan {
  method : Method.t;
  order : list DebtItem.t;
  totalMonthlyMinimum : Q;
  monthsToPayoff : nat
}.

Record Metrics : Type := mkMetrics {
  totalAssets : Q;
  totalDebts : Q;
  netWorth : Q;
  debtToAssetRatio : Q;
  weightedAvgDebtRate : Q;
  monthlyDebtPayments : Q;
  highInterestDebtTotal : Q;
  goodDebtTotal : Q;
  badDebtTotal : Q;
  goodDebtMonthly : Q;
  badDebtMonthly : Q
}.

(** [generatedAt], the time stamp of the report, is left out. *)
Record InsightsReport : Type := mkReport {
  insights : list Insight;
  debtPayoff : option (DebtPayoffPlan * DebtPayoffPlan);
  metrics : Metrics
}.

(** [insights.push({ id: nextId(), category, severity, ... })]: [counter]
    is reset when the engine starts and incremented by each push only, so
    the new id is the new length of the list. *)
Definition push (category severity : string) (text : InsightText)
    (insights : list Insight) : list Insight :=
  insights ++ [mkInsight (S (length insights)) category severity text].

(** [[...items].sort(cmp)]: the sort of an array is stable, and the two
    comparators of the engine are differences of numbers.  An item stays
    in front of a later one unless [cmp] puts it strictly after. *)
Fixpoint insertSorted {A : Type} (cmp : A -> A -> Q) (x : A) (l : list A)
    : list A :=
  match l with
  | [] => [x]
  | y :: l' =>
      if ltb 0 (cmp x y) then y :: insertSorted cmp x l' else x :: y :: l'
  end.

Definition sortBy {A : Type} (cmp : A -> A -> Q) (l : list A) : list A :=
  fold_right (insertSorted cmp) [] l.

(** [d.monthlyPayment ?? d.minimumPayment]. *)
Definition paymentOf (d : DebtLiability.t) : Q :=
  default (DebtLiability.minimumPayment d) (DebtLiability.monthlyPayment d).

(** [d.monthlyPayment && d.monthlyPayment <= d.minimumPayment * 1.05]: an
    absent payment and a payment of [0] are falsy; the product is the
    binary64 product of the minimum payment and the literal [1.05]. *)
Definition paysMinimumOnly (d : DebtLiability.t) : bool :=
  match DebtLiability.monthlyPayment d with
  | Some p =>
      negb (Qeq_bool (Binary64.read p) 0)
      && leb (Binary64.read p)
           (Binary64.mul (Binary64.read (DebtLiability.minimumPayment d))
              (Binary64.read (105 # 100)))
  | None => false
  end.

(** [365.25 * 24 * 60 * 60 * 1000]. *)
Definition MS_PER_YEAR : Q := 31557600000.

(** [`${d.name} (${d.interestRate}%)`]. *)
Definition nameAndRate (d : DebtLiability.t) : string * Q :=
  (DebtLiability.name d, DebtLiability.interestRate d).

Definition toDebtItem (d : DebtLiability.t) : DebtItem.t :=
  DebtItem.mk (DebtLiability.name d) (DebtLiability.currentBalance d)
    (DebtLiability.interestRate d) (DebtLiability.minimumPayment d).


(** ** The browser-side engine ([src/web/services/insightsEngine.ts])

    The body of [computeInsights] is one long sequence of [const]
    declarations and of blocks that push onto the array [insights].  Inside
    the section below, whose variables are the arguments of the function,
    each [const] is a definition of the same name, and each block is a
    function from the array before the block to the array after it. *)

Module Web.

Definition isGoodDebt (debtType : DebtType) (interestRate : Q) : bool :=
  if DebtType_eqb debtType mortgage then true
  else if DebtType_eqb debtType student_loan && leb interestRate 7 then true
  else false.

Section computeInsights.

Variable env : Env.
Variable realEstate : list RealEstateHolding.t.
Variable stocks : list StockHolding.t.
Variable crypto : list CryptoHolding.t.
Variable retirement : list RetirementAccount.t.
Variable debts : list DebtLiability.t.

Definition totalRealEstateEquity : Q :=
  sumBy (fun p => RealEstateHolding.estimatedValue p
                  - RealEstateHolding.mortgageBalance p) realEstate.
Definition totalStocks : Q :=
  sumBy (fun st => StockHolding.shares st
                   * default (StockHolding.costBasisPerShare st)
                       (StockHolding.currentPrice st)) stocks.
Definition totalCrypto : Q :=
  sumBy (fun c => CryptoHolding.quantity c
                  * default (CryptoHolding.costBasisPerUnit c)
                      (CryptoHolding.currentPrice c)) crypto.
Definition totalRetirement : Q := sumBy RetirementAccount.balance retirement.
Definition totalAssets : Q :=
  totalRealEstateEquity + totalStocks + totalCrypto + totalRetirement.

Definition totalMortgageBalances : Q :=
  sumBy RealEstateHolding.mortgageBalance realEstate.
Definition monthlyMortgagePayments : Q :=
  sumBy (fun p => default 0 (RealEstateHolding.monthlyMortgagePayment p))
    realEstate.

Definition totalDebtsOnly : Q := sumBy DebtLiability.currentBalance debts.
Definition totalDebts : Q := totalDebtsOnly.
Definition totalAllObligations : Q := totalDebtsOnly + totalMortgageBalances.
Definition netWorth : Q := totalAssets - totalDebts.

Definition badDebts : list DebtLiability.t :=
  List.filter (fun d => negb (isGoodDebt (DebtLiability.debtType d)
                                (DebtLiability.interestRate d))) debts.
Definition goodDebtsFromTable : list DebtLiability.t :=
  List.filter (fun d => isGoodDebt (DebtLiability.debtType d)
                          (DebtLiability.interestRate d)) debts.

Definition badDebtTotal : Q := sumBy DebtLiability.currentBalance badDebts.
Definition goodDebtTotal : Q :=
  sumBy DebtLiability.currentBalance goodDebtsFromTable
  + totalMortgageBalances.
Definition badDebtMonthly : Q := sumBy paymentOf badDebts.
Definition goodDebtMonthly : Q :=
  sumBy paymentOf goodDebtsFromTable + monthlyMortgagePayments.

Definition totalAllDebtBalance : Q := totalDebtsOnly + totalMortgageBalances.
Definition debtWeightedSum : Q :=
  sumBy (fun d => DebtLiability.interestRate d
                  * DebtLiability.currentBalance d) debts.
Definition mortgageWeightedSum : Q := totalMortgageBalances * 6.
Definition weightedAvgDebtRate : Q :=
  if ltb 0 totalAllDebtBalance
  then (debtWeightedSum + mortgageWeightedSum) / totalAllDebtBalance
  else 0.

Definition monthlyDebtPayments : Q :=
  sumBy paymentOf debts + monthlyMortgagePayments.
Definition highInterestDebts : list DebtLiability.t :=
  List.filter (fun d => leb 10 (DebtLiability.interestRate d)) debts.
Definition highInterestDebtTotal : Q :=
  sumBy DebtLiability.currentBalance highInterestDebts.
Definition debtToAssetRatio : Q :=
  if ltb 0 totalAssets then totalAllObligations / totalAssets else 0.

(** [// --- Good vs Bad Debt Overview ---] *)
Definition goodVsBadDebtOverview (insights : list Insight) : list Insight :=
  if ltb 0 totalAllObligations then
    if ltb 0 badDebtTotal && ltb 0 goodDebtTotal then
      push "debt_payoff"
        (if ltb goodDebtTotal badDebtTotal then "warning" else "info")
        (BadVsGoodDebt badDebtTotal goodDebtTotal badDebtMonthly
           goodDebtMonthly) insights
    else if ltb 0 badDebtTotal then
      push "debt_payoff" "warning"
        (AllDebtHighCost badDebtTotal badDebtMonthly) insights
    else if ltb 0 goodDebtTotal && Qeq_bool badDebtTotal 0 then
      push "debt_payoff" "positive"
        (OnlyGoodDebt goodDebtTotal goodDebtMonthly) insights
    else insights
  else insights.

(** [// --- Debt Payoff Insights ---], the three blocks inside
    [if (debts.length > 0)]. *)
Definition highInterestWarning (insights : list Insight) : list Insight :=
  if ltb 0 highInterestDebtTotal then
    push "debt_payoff"
      (if ltb (totalAssets * (1 # 10)) highInterestDebtTotal
       then "critical" else "warning")
      (HighInterestDebt highInterestDebtTotal
         (map nameAndRate highInterestDebts)
         (highInterestDebtTotal * weightedAvgDebtRate / 100 / 12))
      insights
  else insights.

Definition minOnlyDebts : list DebtLiability.t :=
  List.filter paysMinimumOnly debts.

Definition minimumPaymentWarning (insights : list Insight) : list Insight :=
  if (0 <? length minOnlyDebts)%nat then
    push "cash_flow" "warning"
      (MinimumsOnly (map DebtLiability.name minOnlyDebts)) insights
  else insights.

Definition annualInterest : Q :=
  sumBy (fun d => DebtLiability.currentBalance d
                  * DebtLiability.interestRate d / 100) debts.

Definition annualInterestCost (insights : list Insight) : list Insight :=
  if ltb 0 annualInterest then
    push "debt_payoff"
      (if ltb 2000 annualInterest then "warning" else "info")
      (AnnualInterest annualInterest) insights
  else insights.

Definition debtPayoffInsights (insights : list Insight) : list Insight :=
  if (0 <? length debts)%nat then
    annualInterestCost (minimumPaymentWarning (highInterestWarning insights))
  else insights.

(** [// --- Leverage Insights ---] *)
Definition stockGains : Q :=
  Binary64.sum
    (fun st =>
       let current :=
         Binary64.read (default (StockHolding.costBasisPerShare st)
                          (StockHolding.currentPrice st)) in
       Binary64.mul
         (Binary64.sub current
            (Binary64.read (StockHolding.costBasisPerShare st)))
         (Binary64.read (StockHolding.shares st))) stocks.
Definition stockCostBasis : Q :=
  Binary64.sum
    (fun st => Binary64.mul (Binary64.read (StockHolding.shares st))
                 (Binary64.read (StockHolding.costBasisPerShare st))) stocks.

Definition oldestStockDate : Q :=
  fold_left (fun oldest st =>
               let d := StockHolding.createdAt st in
               if ltb d oldest then d else oldest) stocks (now env).
Definition holdingYears : Q :=
  Qmax (Binary64.div
          (Binary64.sub (Binary64.read (now env))
             (Binary64.read oldestStockDate)) MS_PER_YEAR) 1.
Definition annualizedReturnPct : Q :=
  if ltb 0 stockCostBasis
  then Binary64.mul
         (Binary64.sub
            (pow env (Binary64.add 1 (Binary64.div stockGains stockCostBasis))
               (Binary64.div 1 holdingYears)) 1)
         100
  else 0.

Definition highRateDebtsAboveReturn : list DebtLiability.t :=
  List.filter
    (fun d => ltb annualizedReturnPct
                (Binary64.read (DebtLiability.interestRate d))) debts.

Definition debtAboveReturn (insights : list Insight) : list Insight :=
  if (0 <? length debts)%nat && ltb 0 annualizedReturnPct then
    if (0 <? length highRateDebtsAboveReturn)%nat then
      push "leverage" "warning"
        (DebtExceedsReturns annualizedReturnPct
           (map nameAndRate highRateDebtsAboveReturn)) insights
    else insights
  else insights.

Definition creditCards : list DebtLiability.t :=
  List.filter (fun d => DebtType_eqb (DebtLiability.debtType d) credit_card
                        && ltb 0 (DebtLiability.currentBalance d)) debts.

Definition creditCardWhileInvesting (insights : list Insight)
    : list Insight :=
  if (0 <? length creditCards)%nat && (ltb 0 totalStocks || ltb 0 totalCrypto)
  then
    let ccTotal := sumBy DebtLiability.currentBalance creditCards in
    let avgCCRate :=
      sumBy (fun d => DebtLiability.interestRate d
                      * DebtLiability.currentBalance d) creditCards
      / ccTotal in
    push "leverage" "critical" (CreditCardWhileInvesting ccTotal avgCCRate)
      insights
  else insights.

(** [// --- Portfolio Health ---] *)
Definition debtToAssetBand (insights : list Insight) : list Insight :=
  if ltb 0 debtToAssetRatio then
    let severity :=
      if ltb debtToAssetRatio (2 # 10) then "positive"
      else if ltb debtToAssetRatio (4 # 10) then "info"
      else if ltb debtToAssetRatio (6 # 10) then "warning"
      else "critical" in
    push "portfolio_health" severity (DebtToAssetRatio debtToAssetRatio)
      insights
  else insights.

Definition totalInvestable : Q := totalStocks + totalCrypto + totalRetirement.
Definition cryptoPct : Q :=
  if ltb 0 totalInvestable then totalCrypto / totalInvestable * 100 else 0.
Definition stocksPct : Q :=
  if ltb 0 totalInvestable then totalStocks / totalInvestable * 100 else 0.

Definition diversification (insights : list Insight) : list Insight :=
  if ltb 0 totalInvestable then
    let insights :=
      if ltb 30 cryptoPct then
        push "portfolio_health" "warning" (CryptoConcentration cryptoPct)
          insights
      else insights in
    if ltb 80 stocksPct then
      push "portfolio_health" "info" (StockConcentration stocksPct) insights
    else insights
  else insights.

Definition emergencyBuffer (insights : list Insight) : list Insight :=
  if ltb 0 monthlyDebtPayments && (0 <? length debts)%nat then
    let monthlyExpenseEstimate := monthlyDebtPayments * 2 in
    let liquidAssets := totalStocks + totalCrypto in
    let monthsCovered := liquidAssets / monthlyExpenseEstimate in
    if ltb monthsCovered 3 then
      push "cash_flow" "warning"
        (LimitedEmergencyBuffer liquidAssets monthsCovered) insights
    else insights
  else insights.

(** [// --- Positive insights ---] *)
Definition debtFree (insights : list Insight) : list Insight :=
  if ltb 0 netWorth && (length debts =? 0)%nat then
    push "opportunity" "positive" (DebtFree netWorth) insights
  else insights.

(** [totalRetirement / totalAssets] is [Infinity] when [totalAssets] is 0
    (the dividend is positive here), and [Infinity >= 20] holds. *)
Definition retirementShare (insights : list Insight) : list Insight :=
  if ltb 0 netWorth && ltb 0 totalRetirement then
    let retirementPct := totalRetirement / totalAssets * 100 in
    if Qeq_bool totalAssets 0 || leb 20 retirementPct then
      push "portfolio_health" "positive"
        (RetirementShare retirementPct totalRetirement) insights
    else insights
  else insights.

(** The array [insights] when the function returns: it starts empty and
    goes through the blocks in the order of the source. *)
Definition insights : list Insight :=
  retirementShare
    (debtFree
       (emergencyBuffer
          (diversification
             (debtToAssetBand
                (creditCardWhileInvesting
                   (debtAboveReturn
                      (debtPayoffInsights
                         (goodVsBadDebtOverview [])))))))).

(** [// --- Debt payoff plans ---] *)
Definition debtItems : list DebtItem.t := map toDebtItem debts.
Definition totalMin : Q := sumBy DebtItem.minimumPayment debtItems.
Definition avalanche : list DebtItem.t :=
  sortBy (fun a b => DebtItem.rate b - DebtItem.rate a) debtItems.
Definition snowball : list DebtItem.t :=
  sortBy (fun a b => DebtItem.balance a - DebtItem.balance b) debtItems.

Definition debtPayoff : option (DebtPayoffPlan * DebtPayoffPlan) :=
  if (0 <? length debts)%nat then
    Some (mkPlan Method.avalanche avalanche totalMin
            (Payoff.estimatePayoffMonths avalanche totalMin),
          mkPlan Method.snowball snowball totalMin
            (Payoff.estimatePayoffMonths snowball totalMin))
  else None.

Definition computeInsights : InsightsReport :=
  mkReport insights debtPayoff
    (mkMetrics totalAssets totalDebts netWorth debtToAssetRatio
       weightedAvgDebtRate monthlyDebtPayments highInterestDebtTotal
       goodDebtTotal badDebtTotal goodDebtMonthly badDebtMonthly).

End computeInsights.

End Web.

(** ** The main-process engine ([src/main/services/insightsEngine.ts])

    [generateInsights] reads the five tables and the [age] setting from
    the repositories; they are the variables of the section here.  [age] is
    the value of the variable [age] of the source: [None] when the setting
    is absent or empty ([null]) or does not parse ([NaN], which is falsy as
    well).  The body is laid out as for the browser-side engine. *)

Module Main.

Definition isGoodDebt (debtType : DebtType) (interestRate : Q) : bool :=
  if DebtType_eqb debtType mortgage then true
  else if DebtType_eqb debtType student_loan && leb interestRate 7 then true
  else false.

(** [age && ...]: [0] is falsy. *)
Definition truthyAge (age : option Z) : option Z :=
  match age with
  | Some a => if (a =? 0)%Z then None else Some a
  | None => None
  end.

Section generateInsights.

Variable env : Env.
Variable realEstate : list RealEstateHolding.t.
Variable stocks : list StockHolding.t.
Variable crypto : list CryptoHolding.t.
Variable retirement : list RetirementAccount.t.
Variable debts : list DebtLiability.t.
Variable age : option Z.

Definition totalRealEstate : Q :=
  sumBy RealEstateHolding.estimatedValue realEstate.

Definition totalRealEstateEquity : Q :=
  sumBy (fun p => RealEstateHolding.estimatedValue p
                  - RealEstateHolding.mortgageBalance p) realEstate.
Definition totalStocks : Q :=
  sumBy (fun st => StockHolding.shares st
                   * default (StockHolding.costBasisPerShare st)
                       (StockHolding.currentPrice st)) stocks.
Definition totalCrypto : Q :=
  sumBy (fun c => CryptoHolding.quantity c
                  * default (CryptoHolding.costBasisPerUnit c)
                      (CryptoHolding.currentPrice c)) crypto.
Definition totalRetirement : Q := sumBy RetirementAccount.balance retirement.
Definition totalAssets : Q :=
  totalRealEstateEquity + totalStocks + totalCrypto + totalRetirement.

Definition totalMortgageBalances : Q :=
  sumBy RealEstateHolding.mortgageBalance realEstate.
Definition monthlyMortgagePayments : Q :=
  sumBy (fun p => default 0 (RealEstateHolding.monthlyMortgagePayment p))
    realEstate.

Definition totalDebtsOnly : Q := sumBy DebtLiability.currentBalance debts.
Definition totalDebts : Q := totalDebtsOnly.
Definition totalAllObligations : Q := totalDebtsOnly + totalMortgageBalances.
Definition netWorth : Q := totalAssets - totalDebts.

Definition badDebts : list DebtLiability.t :=
  List.filter (fun d => negb (isGoodDebt (DebtLiability.debtType d)
                                (DebtLiability.interestRate d))) debts.
Definition goodDebtsFromTable : list DebtLiability.t :=
  List.filter (fun d => isGoodDebt (DebtLiability.debtType d)
                          (DebtLiability.interestRate d)) debts.

Definition badDebtTotal : Q := sumBy DebtLiability.currentBalance badDebts.
Definition goodDebtTotal : Q :=
  sumBy DebtLiability.currentBalance goodDebtsFromTable
  + totalMortgageBalances.
Definition badDebtMonthly : Q := sumBy paymentOf badDebts.
Definition goodDebtMonthly : Q :=
  sumBy paymentOf goodDebtsFromTable + monthlyMortgagePayments.

Definition totalAllDebtBalance : Q := totalDebtsOnly + totalMortgageBalances.
Definition debtWeightedSum : Q :=
  sumBy (fun d => DebtLiability.interestRate d
                  * DebtLiability.currentBalance d) debts.
Definition mortgageWeightedSum : Q := totalMortgageBalances * 6.
Definition weightedAvgDebtRate : Q :=
  if ltb 0 totalAllDebtBalance
  then (debtWeightedSum + mortgageWeightedSum) / totalAllDebtBalance
  else 0.

Definition monthlyDebtPayments : Q :=
  sumBy paymentOf debts + monthlyMortgagePayments.
Definition highInterestDebts : list DebtLiability.t :=
  List.filter (fun d => leb 10 (DebtLiability.interestRate d)) debts.
Definition highInterestDebtTotal : Q :=
  sumBy DebtLiability.currentBalance highInterestDebts.
Definition debtToAssetRatio : Q :=
  if ltb 0 totalAssets then totalAllObligations / totalAssets else 0.

(** [// --- Good vs Bad Debt Overview ---] *)
Definition goodVsBadDebtOverview (insights : list Insight) : list Insight :=
  if ltb 0 totalAllObligations then
    if ltb 0 badDebtTotal && ltb 0 goodDebtTotal then
      push "debt_payoff"
        (if ltb goodDebtTotal badDebtTotal then "warning" else "info")
        (BadVsGoodDebt badDebtTotal goodDebtTotal badDebtMonthly
           goodDebtMonthly) insights
    else if ltb 0 badDebtTotal then
      push "debt_payoff" "warning"
        (AllDebtHighCost badDebtTotal badDebtMonthly) insights
    else if ltb 0 goodDebtTotal && Qeq_bool badDebtTotal 0 then
      push "debt_payoff" "positive"
        (OnlyGoodDebt goodDebtTotal goodDebtMonthly) insights
    else insights
  else insights.

(** [// --- Debt Payoff Insights ---], the three blocks inside
    [if (debts.length > 0)]. *)
Definition highInterestWarning (insights : list Insight) : list Insight :=
  if ltb 0 highInterestDebtTotal then
    push "debt_payoff"
      (if ltb (totalAssets * (1 # 10)) highInterestDebtTotal
       then "critical" else "warning")
      (HighInterestDebt highInterestDebtTotal
         (map nameAndRate highInterestDebts)
         (highInterestDebtTotal * weightedAvgDebtRate / 100 / 12))
      insights
  else insights.

Definition minOnlyDebts : list DebtLiability.t :=
  List.filter paysMinimumOnly debts.

Definition minimumPaymentWarning (insights : list Insight) : list Insight :=
  if (0 <? length minOnlyDebts)%nat then
    push "cash_flow" "warning"
      (MinimumsOnly (map DebtLiability.name minOnlyDebts)) insights
  else insights.

Definition annualInterest : Q :=
  sumBy (fun d => DebtLiability.currentBalance d
                  * DebtLiability.interestRate d / 100) debts.

Definition annualInterestCost (insights : list Insight) : list Insight :=
  if ltb 0 annualInterest then
    push "debt_payoff"
      (if ltb 2000 annualInterest then "warning" else "info")
      (AnnualInterest annualInterest) insights
  else insights.

Definition debtPayoffInsights (insights : list Insight) : list Insight :=
  if (0 <? length debts)%nat then
    annualInterestCost (minimumPaymentWarning (highInterestWarning insights))
  else insights.

(** [// --- Leverage Insights ---] *)
Definition stockGains : Q :=
  Binary64.sum
    (fun st =>
       let current :=
         Binary64.read (default (StockHolding.costBasisPerShare st)
                          (StockHolding.currentPrice st)) in
       let cost := Binary64.read (StockHolding.costBasisPerShare st) in
       Binary64.mul (Binary64.sub current cost)
         (Binary64.read (StockHolding.shares st)))
    stocks.
Definition stockCostBasis : Q :=
  Binary64.sum
    (fun st => Binary64.mul (Binary64.read (StockHolding.shares st))
                 (Binary64.read (StockHolding.costBasisPerShare st))) stocks.
Definition stockReturnPct : Q :=
  if ltb 0 stockCostBasis
  then Binary64.mul (Binary64.div stockGains stockCostBasis) 100
  else 0.

Definition oldestStockDate : Q :=
  fold_left (fun oldest st =>
               let d := StockHolding.createdAt st in
               if ltb d oldest then d else oldest) stocks (now env).
Definition holdingYears : Q :=
  Qmax (Binary64.div
          (Binary64.sub (Binary64.read (now env))
             (Binary64.read oldestStockDate)) MS_PER_YEAR) 1.
Definition annualizedReturnPct : Q :=
  if ltb 0 stockCostBasis
  then Binary64.mul
         (Binary64.sub
            (pow env (Binary64.add 1 (Binary64.div stockGains stockCostBasis))
               (Binary64.div 1 holdingYears)) 1)
         100
  else 0.

Definition highRateDebtsAboveReturn : list DebtLiability.t :=
  List.filter
    (fun d => ltb annualizedReturnPct
                (Binary64.read (DebtLiability.interestRate d))) debts.

Definition debtAboveReturn (insights : list Insight) : list Insight :=
  if (0 <? length debts)%nat && ltb 0 annualizedReturnPct then
    if (0 <? length highRateDebtsAboveReturn)%nat then
      push "leverage" "warning"
        (DebtExceedsReturns annualizedReturnPct
           (map nameAndRate highRateDebtsAboveReturn)) insights
    else insights
  else insights.

Definition creditCards : list DebtLiability.t :=
  List.filter (fun d => DebtType_eqb (DebtLiability.debtType d) credit_card
                        && ltb 0 (DebtLiability.currentBalance d)) debts.

Definition creditCardWhileInvesting (insights : list Insight)
    : list Insight :=
  if (0 <? length creditCards)%nat && (ltb 0 totalStocks || ltb 0 totalCrypto)
  then
    let ccTotal := sumBy DebtLiability.currentBalance creditCards in
    let avgCCRate :=
      sumBy (fun d => DebtLiability.interestRate d
                      * DebtLiability.currentBalance d) creditCards
      / ccTotal in
    push "leverage" "critical" (CreditCardWhileInvesting ccTotal avgCCRate)
      insights
  else insights.

(** [// --- Portfolio Health ---] *)
Definition debtToAssetBand (insights : list Insight) : list Insight :=
  if ltb 0 debtToAssetRatio then
    let severity :=
      if ltb debtToAssetRatio (2 # 10) then "positive"
      else if ltb debtToAssetRatio (4 # 10) then "info"
      else if ltb debtToAssetRatio (6 # 10) then "warning"
      else "critical" in
    push "portfolio_health" severity (DebtToAssetRatio debtToAssetRatio)
      insights
  else insights.

Definition totalInvestable : Q := totalStocks + totalCrypto + totalRetirement.
Definition cryptoPct : Q :=
  if ltb 0 totalInvestable then totalCrypto / totalInvestable * 100 else 0.
Definition stocksPct : Q :=
  if ltb 0 totalInvestable then totalStocks / totalInvestable * 100 else 0.

Definition diversification (insights : list Insight) : list Insight :=
  if ltb 0 totalInvestable then
    let insights :=
      if ltb 30 cryptoPct then
        push "portfolio_health" "warning" (CryptoConcentration cryptoPct)
          insights
      else insights in
    if ltb 80 stocksPct then
      push "portfolio_health" "info" (StockConcentration stocksPct) insights
    else insights
  else insights.

Definition emergencyBuffer (insights : list Insight) : list Insight :=
  if ltb 0 monthlyDebtPayments && (0 <? length debts)%nat then
    let monthlyExpenseEstimate := monthlyDebtPayments * 2 in
    let liquidAssets := totalStocks + totalCrypto in
    let monthsCovered := liquidAssets / monthlyExpenseEstimate in
    if ltb monthsCovered 3 then
      push "cash_flow" "warning"
        (LimitedEmergencyBuffer liquidAssets monthsCovered) insights
    else insights
  else insights.

(** [// --- Age-based insights ---] *)
Definition yearsToRetirementNote (insights : list Insight) : list Insight :=
  match truthyAge age with
  | Some age =>
      if ltb 0 totalRetirement then
        let yearsToRetirement := Z.max (65 - age) 0 in
        if (0 <? yearsToRetirement)%Z then
          push "portfolio_health" "info"
            (YearsToRetirement age yearsToRetirement totalRetirement)
            insights
        else insights
      else insights
  | None => insights
  end.

Definition ageAppropriateRisk (insights : list Insight) : list Insight :=
  match truthyAge age with
  | Some age =>
      if (age <? 35)%Z && ltb 0 totalCrypto && leb cryptoPct 30 then
        let investable := totalStocks + totalCrypto + totalRetirement in
        if ltb 0 investable then
          let cryptoPctOfTotal := totalCrypto / investable * 100 in
          if ltb 5 cryptoPctOfTotal && leb cryptoPctOfTotal 25 then
            push "portfolio_health" "positive"
              (AgeAppropriateRisk age cryptoPctOfTotal) insights
          else insights
        else insights
      else insights
  | None => insights
  end.

Definition highEquityExposure (insights : list Insight) : list Insight :=
  match truthyAge age with
  | Some age =>
      if (50 <=? age)%Z then
        let volatileAssets := totalCrypto + totalStocks in
        let volatilePct :=
          if ltb 0 totalAssets then volatileAssets / totalAssets * 100
          else 0 in
        if ltb 80 volatilePct then
          push "portfolio_health" "warning"
            (HighEquityExposure age volatilePct) insights
        else insights
      else insights
  | None => insights
  end.

(** [// --- Positive insights ---]; the category of this one is written
    ['positive' as Insight['category']]. *)
Definition debtFree (insights : list Insight) : list Insight :=
  if ltb 0 netWorth && (length debts =? 0)%nat then
    push "positive" "positive" (DebtFree netWorth) insights
  else insights.

(** [totalRetirement / totalAssets] is [Infinity] when [totalAssets] is 0
    (the dividend is positive here), and [Infinity >= 20] holds. *)
Definition retirementShare (insights : list Insight) : list Insight :=
  if ltb 0 netWorth && ltb 0 totalRetirement then
    let retirementPct := totalRetirement / totalAssets * 100 in
    if Qeq_bool totalAssets 0 || leb 20 retirementPct then
      push "portfolio_health" "positive"
        (RetirementShare retirementPct totalRetirement) insights
    else insights
  else insights.

(** The array [insights] when the function returns: it starts empty and
    goes through the blocks in the order of the source. *)
Definition insights : list Insight :=
  retirementShare
    (debtFree
       (highEquityExposure
          (ageAppropriateRisk
             (yearsToRetirementNote
                (emergencyBuffer
                   (diversification
                      (debtToAssetBand
                         (creditCardWhileInvesting
                            (debtAboveReturn
                               (debtPayoffInsights
                                  (goodVsBadDebtOverview []))))))))))).

(** [// --- Debt payoff plans ---] *)
Definition debtItems : list DebtItem.t := map toDebtItem debts.
Definition totalMin : Q := sumBy DebtItem.minimumPayment debtItems.
Definition avalanche : list DebtItem.t :=
  sortBy (fun a b => DebtItem.rate b - DebtItem.rate a) debtItems.
Definition snowball : list DebtItem.t :=
  sortBy (fun a b => DebtItem.balance a - DebtItem.balance b) debtItems.

Definition debtPayoff : option (DebtPayoffPlan * DebtPayoffPlan) :=
  if (0 <? length debts)%nat then
    Some (mkPlan Method.avalanche avalanche totalMin
            (Payoff.estimatePayoffMonths avalanche totalMin),
          mkPlan Method.snowball snowball totalMin
            (Payoff.estimatePayoffMonths snowball totalMin))
  else None.

Definition generateInsights : InsightsReport :=
  mkReport insights debtPayoff
    (mkMetrics totalAssets totalDebts netWorth debtToAssetRatio
       weightedAvgDebtRate monthlyDebtPayments highInterestDebtTotal
       goodDebtTotal badDebtTotal goodDebtMonthly badDebtMonthly).

End generateInsights.

End Main.

(** ** The totals of the classification as the machine adds them

    The reductions behind [goodDebtTotal] and [badDebtTotal] (the same
    lines in both engines) with binary64 additions, in the order of the
    arrays: summing the two halves of a partition need not give, to the
    last bit, what summing the whole list gives. *)

Module Totals64.

Section totals.

Variable realEstate : list RealEstateHolding.t.
Variable debts : list DebtLiability.t.

Definition mortgageBalance (r : RealEstateHolding.t) : Q :=
  Binary64.read (RealEstateHolding.mortgageBalance r).
Definition currentBalance (d : DebtLiability.t) : Q :=
  Binary64.read (DebtLiability.currentBalance d).

Definition totalMortgageBalances : Q :=
  Binary64.sum mortgageBalance realEstate.
Definition totalDebtsOnly : Q :=
  Binary64.sum currentBalance debts.
Definition totalAllObligations : Q :=
  Binary64.add totalDebtsOnly totalMortgageBalances.
Definition badDebtTotal : Q :=
  Binary64.sum currentBalance (Web.badDebts debts).
Definition goodDebtTotal : Q :=
  Binary64.add
    (Binary64.sum currentBalance (Web.goodDebtsFromTable debts))
    totalMortgageBalances.

End totals.

End Totals64.

(** ** The daily snapshot of the price scheduler

    [computePortfolioValues] reads the five tables from the repositories;
    they are arguments here.  Its result is what [refreshAllPrices] stores
    with the date as the snapshot of the day. *)

Module Scheduler.

Record PortfolioValues : Type := mkValues {
  realEstateValue : Q;
  stocksValue : Q;
  cryptoValue : Q;
  retirementValue : Q;
  debtsValue : Q;
  totalNetWorth : Q
}.

Definition computePortfolioValues (realEstate : list RealEstateHolding.t)
    (stocks : list StockHolding.t) (crypto : list CryptoHolding.t)
    (retirement : list RetirementAccount.t) (debts : list DebtLiability.t)
    : PortfolioValues :=
  let realEstateValue :=
    sumBy (fun p => RealEstateHolding.estimatedValue p
                    - RealEstateHolding.mortgageBalance p) realEstate in
  let stocksValue :=
    sumBy (fun s => StockHolding.shares s
                    * default (StockHolding.costBasisPerShare s)
                        (StockHolding.currentPrice s)) stocks in
  let cryptoValue :=
    sumBy (fun c => CryptoHolding.quantity c
                    * default (CryptoHolding.costBasisPerUnit c)
                        (CryptoHolding.currentPrice c)) crypto in
  let retirementValue := sumBy RetirementAccount.balance retirement in
  let debtsValue := sumBy DebtLiability.currentBalance debts in
  mkValues realEstateValue stocksValue cryptoValue retirementValue debtsValue
    (realEstateValue + stocksValue + cryptoValue + retirementValue
     - debtsValue).

End Scheduler.

(** ** The CSV import ([src/web/services/csvParser.ts], and the same
    functions in the import service of the main process)

    A JavaScript string is a sequence of code units; the two functions
    below only compare code units and strings for equality, and are
    modelled over [string]. *)

Module Csv.

(** The code units of the double quote and of [,]. *)
Definition dquote : ascii := "034"%char.
Definition comma : ascii := ","%char.

(** The [for] loop of [parseCsvLine] from position [i] on, [line] being
    what is left of the line from [i]: a quote that follows a quote inside
    quotes is taken as one quote character and skipped ([i++]), any other
    quote toggles [inQuotes]; a comma outside quotes ends the field. *)
Fixpoint parseFrom (line : string) (result : list string) (current : string)
    (inQuotes : bool) : list string :=
  match line with
  | EmptyString => result ++ [current]
  | String ch rest =>
      if Ascii.eqb ch dquote then
        match inQuotes, rest with
        | true, String next rest' =>
            if Ascii.eqb next dquote
            then parseFrom rest' result
                   (String.append current (String dquote EmptyString)) true
            else parseFrom rest result current (negb inQuotes)
        | _, _ => parseFrom rest result current (negb inQuotes)
        end
      else if Ascii.eqb ch comma && negb inQuotes then
        parseFrom rest (result ++ [current]) EmptyString inQuotes
      else
        parseFrom rest result
          (String.append current (String ch EmptyString)) inQuotes
  end.

Definition parseCsvLine (line : string) : list string :=
  parseFrom line [] EmptyString false.

(** [h.includes(candidate)]. *)
Fixpoint includes (candidate h : string) : bool :=
  String.prefix candidate h
  || match h with
     | EmptyString => false
     | String _ h' => includes candidate h'
     end.

(** [if (found)]: [undefined] and the empty string are falsy. *)
Definition truthy (found : string) : bool :=
  negb (String.eqb found EmptyString).

(** One of the two loops of [findColumn], [test h candidate] being the
    test of its [headers.find]. *)
Fixpoint firstMatch (test : string -> string -> bool)
    (headers candidates : list string) : option string :=
  match candidates with
  | [] => None
  | candidate :: candidates' =>
      match List.find (fun h => test h candidate) headers with
      | Some found =>
          if truthy found then Some found
          else firstMatch test headers candidates'
      | None => firstMatch test headers candidates'
      end
  end.

Definition findColumn (headers candidates : list string) : option string :=
  match firstMatch (fun h candidate => String.eqb h candidate)
          headers candidates with
  | Some found => Some found
  | None =>
      firstMatch (fun h candidate => includes candidate h) headers candidates
  end.

End Csv.

(** ** Vocabulary of the properties *)

Definition nonneg (l : list Q) : Prop := Forall (Qle 0) l.

(** [l] is pointwise at most [l']. *)
Definition pointwise_le (l l' : list Q) : Prop := Forall2 Qle l l'.

(** A debt as the host is to supply it: no negative balance, rate or
    minimum payment. *)
Definition wellFormed (d : DebtItem.t) : Prop :=
  0 <= DebtItem.balance d /\ 0 <= DebtItem.rate d
  /\ 0 <= DebtItem.minimumPayment d.

(** Balances and budget are non-negative. *)
Definition good (st : Payoff.State) : Prop := nonneg (fst st) /\ 0 <= snd st.

(** [st] is at least as far along as [st']: lower balances, and at least
    as much budget left. *)
Definition ahead (st st' : Payoff.State) : Prop :=
  pointwise_le (fst st) (fst st') /\ snd st' <= snd st.

(** A host for the examples: the clock reads 0 and [pow x y] answers
    [x], which is [Math.pow(x, 1)], the call the engine makes for stocks
    held for at most a year. *)
Definition sampleEnv : Env := mkEnv 0 (fun x _ => x).

(** Every field of the metrics block is zero. *)
Definition allZero (m : Metrics) : Prop :=
  totalAssets m == 0 /\ totalDebts m == 0 /\ netWorth m == 0
  /\ debtToAssetRatio m == 0 /\ weightedAvgDebtRate m == 0
  /\ monthlyDebtPayments m == 0 /\ highInterestDebtTotal m == 0
  /\ goodDebtTotal m == 0 /\ badDebtTotal m == 0
  /\ goodDebtMonthly m == 0 /\ badDebtMonthly m == 0.

(** The array [insights] after the blocks that come before the age-based
    ones, which the two engines have in common. *)
Definition sharedBlocks (env : Env) (realEstate : list RealEstateHolding.t)
    (stocks : list StockHolding.t) (crypto : list CryptoHolding.t)
    (retirement : list RetirementAccount.t) (debts : list DebtLiability.t)
    : list Insight :=
  Web.emergencyBuffer realEstate stocks crypto debts
    (Web.diversification stocks crypto retirement
       (Web.debtToAssetBand realEstate stocks crypto retirement debts
          (Web.creditCardWhileInvesting stocks crypto debts
             (Web.debtAboveReturn env stocks debts
                (Web.debtPayoffInsights realEstate stocks crypto retirement
                   debts (Web.goodVsBadDebtOverview realEstate debts [])))))).

(** The category the declared enumeration has for the debt-free insight,
    in place of the undeclared ["positive"]. *)
Definition relabel (i : Insight) : Insight :=
  if String.eqb (category i) "positive"
  then mkInsight (id i) "opportunity" (severity i) (text i)
  else i.

(** The category and the severity of an insight belong to the declared
    enumerations. *)
Definition validInsight (i : Insight) : Prop :=
  inList (category i) categories = true
  /\ inList (severity i) severities = true.

(** A block keeps what the array already holds. *)
Definition keeps (block : list Insight -> list Insight) : Prop :=
  forall ins x, In x ins -> In x (block ins).

(** Every insight a block pushes satisfies [P]. *)
Definition pushesOnly (P : Insight -> Prop)
    (block : list Insight -> list Insight) : Prop :=
  forall ins, Forall P ins -> Forall P (block ins).

(** The insights of [new] pushed onto the array, first to last. *)
Definition pushAll (new : list (string * string * InsightText))
    (ins : list Insight) : list Insight :=
  fold_left (fun acc e => push (fst (fst e)) (snd (fst e)) (snd e) acc)
    new ins.

(** A block does nothing to the array but push onto it. *)
Definition pushesOnto (block : list Insight -> list Insight) : Prop :=
  forall ins, exists new, block ins = pushAll new ins.

(** One of the three texts of the good-versus-bad-debt overview. *)
Definition isOverview (t : InsightText) : bool :=
  match t with
  | BadVsGoodDebt _ _ _ _ | AllDebtHighCost _ _ | OnlyGoodDebt _ _ => true
  | _ => false
  end.

(** A field as a CSV writer quotes it: between double quotes, with each
    double quote of the field doubled. *)
Fixpoint escapeQuotes (field : string) : string :=
  match field with
  | EmptyString => EmptyString
  | String ch field' =>
      if Ascii.eqb ch Csv.dquote
      then String Csv.dquote (String Csv.dquote (escapeQuotes field'))
      else String ch (escapeQuotes field')
  end.

Definition quoteField (field : string) : string :=
  String Csv.dquote
    (String.append (escapeQuotes field) (String Csv.dquote EmptyString)).

(** [fields.join(',')]. *)
Fixpoint joinComma (fields : list string) : string :=
  match fields with
  | [] => EmptyString
  | [field] => field
  | field :: fields' =>
      String.append field (String Csv.comma (joinComma fields'))
  end.

(** The character [ch] occurs in [s]. *)
Fixpoint occurs (ch : ascii) (s : string) : bool :=
  match s with
  | EmptyString => false
  | String ch' s' => Ascii.eqb ch' ch || occurs ch s'
  end.

(** The rest of the line does not start with a double quote. *)
Definition noQuoteAhead (rest : string) : Prop :=
  match rest with
  | EmptyString => True
  | String ch _ => Ascii.eqb ch Csv.dquote = false
  end.

(** What an age-based insight says about the age of the settings: it
    carries that age, which is not 0; the years to retirement are
    [65 - age] and positive; the risk note is for those under 35 and the
    equity warning for those of 50 and more. *)
Definition ageRule (age : option Z) (i : Insight) : Prop :=
  match text i with
  | YearsToRetirement a years _ =>
      Main.truthyAge age = Some a /\ years = (65 - a)%Z /\ (a < 65)%Z
  | AgeAppropriateRisk a _ => Main.truthyAge age = Some a /\ (a < 35)%Z
  | HighEquityExposure a _ => Main.truthyAge age = Some a /\ (50 <= a)%Z
  | _ => True
  end.

Definition isAgeBased (t : InsightText) : bool :=
  match t with
  | YearsToRetirement _ _ _ | AgeAppropriateRisk _ _
  | HighEquityExposure _ _ => true
  | _ => false
  end.


(** A whole amount: a natural number of dollars. *)
Definition whole (q : Q) : Prop :=
  exists z : Z, (0 <= z)%Z /\ q == inject_Z z.

Definition isDebtFree (t : InsightText) : bool :=
  match t with
  | DebtFree _ => true
  | _ => false
  end.

(** * Properties *)

(** ** Comparisons, minima and array accesses *)

Lemma leb_spec (x y : Q) : BoolSpec (x <= y) (y < x) (leb x y).
Proof.
  unfold leb. destruct (Qle_bool x y) eqn:E; constructor.
  - now apply Qle_bool_iff.
  - apply Qnot_le_lt. intros H. apply Qle_bool_iff in H. congruence.
Qed.

Lemma ltb_spec (x y : Q) : BoolSpec (x < y) (y <= x) (ltb x y).
Proof.
  unfold ltb. destruct (Qle_bool y x) eqn:E; constructor.
  - now apply Qle_bool_iff.
  - apply Qnot_le_lt. intros H. apply Qle_bool_iff in H. congruence.
Qed.

(** Case analysis on every [Qmin] and [Qmax] of the goal, leaving linear
    arithmetic. *)
Ltac no_minmax t :=
  lazymatch t with
  | context [Qmin _ _] => fail
  | context [Qmax _ _] => fail
  | _ => idtac
  end.

Ltac minmax_cases :=
  repeat match goal with
  | |- context [Qmin ?a ?b] =>
      no_minmax a; no_minmax b;
      generalize (Q.min_spec a b); generalize (Qmin a b);
      intros ? [[? ?] | [? ?]]
  | |- context [Qmax ?a ?b] =>
      no_minmax a; no_minmax b;
      generalize (Q.max_spec a b); generalize (Qmax a b);
      intros ? [[? ?] | [? ?]]
  end.

Ltac qsolve := unfold min3 in *; rewrite ?Qred_correct; minmax_cases; lra.

(** Each [Qred x] of the goal becomes a number equal to [x]. *)
Ltac no_Qred t :=
  lazymatch t with
  | context [Qred _] => fail
  | _ => idtac
  end.

Ltac qred_cases :=
  repeat match goal with
  | |- context [Qred ?x] =>
      no_Qred x;
      generalize (Qred_correct x); generalize (Qred x); intros ?
  end.

(** ** Rounding *)

Module Binary64Facts.
Import Binary64.

(** Rounding does not depend on how the rational is written. *)
Lemma round_compat (x y : Q) : x == y -> round x = round y.
Proof. intros H. unfold round. now rewrite (Qred_complete x y H). Qed.


(** A number the rounding leaves alone is the result of every operation
    whose exact result it is. *)
Lemma round_exact (x y : Q) : x == y -> round y == y -> round x == y.
Proof. intros H Hy. now rewrite (round_compat x y H). Qed.

(** *** Whole numbers below [2^53] are binary64 numbers *)

Lemma nearestEven_whole (y : Q) (k : Z) :
  y == inject_Z k -> nearestEven y = k.
Proof.
  intros H. unfold nearestEven.
  assert (Hf : Qfloor y = k) by (rewrite H; apply Qfloor_Z).
  rewrite Hf.
  assert (Hlt : y - inject_Z k < 1 # 2) by (rewrite H; lra).
  replace (Qcompare (y - inject_Z k) (1 # 2)) with Lt
    by (symmetry; apply Qlt_alt; exact Hlt).
  reflexivity.
Qed.

Lemma Qpower_2_whole (s : Z) : (0 <= s)%Z -> 2 ^ s == inject_Z (2 ^ s).
Proof. intros Hs. symmetry. apply (Zpower_Qpower 2 s Hs). Qed.

Lemma magnitude_whole (z : positive) :
  magnitude (inject_Z (Zpos z)) = Z.log2 (Zpos z).
Proof.
  unfold magnitude. cbn [Qnum Qden inject_Z].
  change (Z.log2 1) with 0%Z. rewrite Z.sub_0_r.
  assert (H : Qle_bool (2 ^ Z.log2 (Z.pos z)) (inject_Z (Z.pos z)) = true).
  { apply Qle_bool_iff. rewrite Qpower_2_whole by apply Z.log2_nonneg.
    rewrite <- Zle_Qle. apply Z.log2_spec. lia. }
  change (Z.pos z # 1) with (inject_Z (Z.pos z)). now rewrite H.
Qed.

Lemma roundPos_whole (z : positive) :
  (Zpos z < 2 ^ 53)%Z -> roundPos (inject_Z (Zpos z)) == inject_Z (Zpos z).
Proof.
  intros Hz. unfold roundPos. rewrite magnitude_whole.
  set (e := Z.log2 (Z.pos z)).
  assert (He0 : (0 <= e)%Z) by apply Z.log2_nonneg.
  assert (He : (e <= 52)%Z).
  { assert (e < 53)%Z; [| lia]. apply Z.log2_lt_pow2; lia. }
  rewrite Z.max_l by lia.
  rewrite (nearestEven_whole _ (Z.pos z * 2 ^ (52 - e))).
  - rewrite inject_Z_mult, <- Qpower_2_whole by lia.
    rewrite <- Qmult_assoc, <- Qpower_plus by discriminate.
    replace (52 - e + (e - 52))%Z with 0%Z by lia. simpl. lra.
  - rewrite inject_Z_mult, <- Qpower_2_whole by lia. reflexivity.
Qed.

Lemma Qred_inject_Z (z : Z) : Qred (inject_Z z) = inject_Z z.
Proof.
  unfold Qred, inject_Z.
  pose proof (Z.ggcd_gcd z 1) as Hg.
  pose proof (Z.ggcd_correct_divisors z 1) as Hd.
  destruct (Z.ggcd z 1) as (g, (aa, bb)). cbn [fst snd] in *.
  rewrite Z.gcd_1_r in Hg. subst g. destruct Hd as [Ha Hb].
  rewrite Z.mul_1_l in Ha, Hb. now subst aa bb.
Qed.

Lemma round_whole (z : Z) :
  (0 <= z < 2 ^ 53)%Z -> round (inject_Z z) == inject_Z z.
Proof.
  intros [H0 Hz]. unfold round. rewrite Qred_inject_Z. cbn [Qnum inject_Z].
  destruct z as [| p | p]; [reflexivity | | lia].
  rewrite Qred_correct. now apply roundPos_whole.
Qed.

End Binary64Facts.

Lemma getQ_lookup (l : list Q) (i : nat) :
  (i < length l)%nat -> l !! i = Some (getQ l i).
Proof.
  intros Hi. unfold getQ.
  destruct (nth_lookup_or_length l i 0) as [H | H]; [exact H | lia].
Qed.

Lemma getQ_nonneg (l : list Q) (i : nat) : nonneg l -> 0 <= getQ l i.
Proof.
  intros Hl. unfold getQ. rewrite nth_lookup.
  destruct (l !! i) as [x |] eqn:E; simpl; [| lra].
  exact (Forall_lookup_1 _ _ _ _ Hl E).
Qed.

Lemma getQ_le (l l' : list Q) (i : nat) :
  pointwise_le l l' -> getQ l i <= getQ l' i.
Proof.
  intros H. unfold getQ. rewrite !nth_lookup.
  destruct (l !! i) as [x |] eqn:E.
  - destruct (Forall2_lookup_l _ _ _ _ _ H E) as (y & Ey & Hxy).
    rewrite Ey. exact Hxy.
  - apply lookup_ge_None in E. rewrite (Forall2_length _ _ _ H) in E.
    apply lookup_ge_None in E. rewrite E. simpl. lra.
Qed.

Lemma length_setQ (l : list Q) (i : nat) (v : Q) :
  length (setQ l i v) = length l.
Proof. apply length_insert. Qed.

Lemma getQ_setQ_eq (l : list Q) (i : nat) (v : Q) :
  (i < length l)%nat -> getQ (setQ l i v) i == v.
Proof.
  intros Hi. unfold getQ, setQ. rewrite nth_lookup.
  rewrite list_lookup_insert_eq by exact Hi. simpl. apply Qred_correct.
Qed.

Lemma getQ_setQ_ne (l : list Q) (i j : nat) (v : Q) :
  i <> j -> getQ (setQ l i v) j = getQ l j.
Proof.
  intros Hij. unfold getQ, setQ. rewrite !nth_lookup.
  now rewrite list_lookup_insert_ne.
Qed.

Lemma setQ_nonneg (l : list Q) (i : nat) (v : Q) :
  nonneg l -> 0 <= v -> nonneg (setQ l i v).
Proof.
  intros Hl Hv. apply Forall_insert; [exact Hl |]. now rewrite Qred_correct.
Qed.

Lemma setQ_le (l l' : list Q) (i : nat) (v v' : Q) :
  pointwise_le l l' -> v <= v' -> pointwise_le (setQ l i v) (setQ l' i v').
Proof.
  intros Hl Hv. apply Forall2_insert; [exact Hl |].
  now rewrite !Qred_correct.
Qed.

(** Writing one side only: the new entry is compared with the entry the
    other array has at the same index. *)
Lemma setQ_le_l (l l' : list Q) (i : nat) (v : Q) :
  pointwise_le l l' -> v <= getQ l' i -> pointwise_le (setQ l i v) l'.
Proof.
  intros Hl Hv. unfold setQ.
  destruct (Nat.lt_ge_cases i (length l')) as [Hi | Hi].
  - rewrite <- (list_insert_id l' i (getQ l' i)) by now apply getQ_lookup.
    apply Forall2_insert; [exact Hl |]. now rewrite Qred_correct.
  - rewrite list_insert_ge; [exact Hl |].
    now rewrite (Forall2_length _ _ _ Hl).
Qed.

Lemma setQ_le_r (l l' : list Q) (i : nat) (v : Q) :
  pointwise_le l l' -> getQ l i <= v -> pointwise_le l (setQ l' i v).
Proof.
  intros Hl Hv. unfold setQ.
  destruct (Nat.lt_ge_cases i (length l)) as [Hi | Hi].
  - rewrite <- (list_insert_id l i (getQ l i)) by now apply getQ_lookup.
    apply Forall2_insert; [exact Hl |]. now rewrite Qred_correct.
  - rewrite list_insert_ge; [exact Hl |].
    now rewrite <- (Forall2_length _ _ _ Hl).
Qed.

Lemma pointwise_le_refl (l : list Q) : pointwise_le l l.
Proof. induction l; constructor; [lra | assumption]. Qed.

Lemma pointwise_le_trans (l1 l2 l3 : list Q) :
  pointwise_le l1 l2 -> pointwise_le l2 l3 -> pointwise_le l1 l3.
Proof.
  intros H12. revert l3. induction H12; intros l3 H23; inversion H23; subst.
  - constructor.
  - constructor; [lra | now apply IHForall2].
Qed.

(** ** The simulator keeps balances and budget non-negative *)

Module PayoffFacts.
Import Payoff.

Section Phases.

Variables rates mins : list Q.
Hypothesis rates_nonneg : nonneg rates.
Hypothesis mins_nonneg : nonneg mins.

Lemma accrueAt_length (bs : list Q) (i : nat) :
  length (accrueAt rates bs i) = length bs.
Proof.
  unfold accrueAt. destruct (ltb _ _); [apply length_setQ | reflexivity].
Qed.

Lemma accrueAt_nonneg (bs : list Q) (i : nat) :
  nonneg bs -> nonneg (accrueAt rates bs i).
Proof.
  intros Hbs. unfold accrueAt.
  destruct (ltb_spec 0 (getQ bs i)) as [Hpos | Hle]; [| exact Hbs].
  apply setQ_nonneg; [exact Hbs |].
  pose proof (getQ_nonneg rates i rates_nonneg) as Hr.
  pose proof (Qmult_le_0_compat _ _ (Qlt_le_weak _ _ Hpos) Hr). lra.
Qed.

Lemma accrueAt_le (bs bs' : list Q) (i : nat) :
  nonneg bs -> pointwise_le bs bs' ->
  pointwise_le (accrueAt rates bs i) (accrueAt rates bs' i).
Proof.
  intros Hbs Hle. unfold accrueAt.
  pose proof (getQ_le _ _ i Hle) as Hi.
  pose proof (getQ_nonneg rates i rates_nonneg) as Hr.
  pose proof (getQ_nonneg bs i Hbs) as Hb.
  destruct (ltb_spec 0 (getQ bs i)) as [Hpos | Hnp];
    destruct (ltb_spec 0 (getQ bs' i)) as [Hpos' | Hnp'].
  - apply setQ_le; [exact Hle |].
    assert (0 <= (getQ bs' i - getQ bs i) * getQ rates i)
      by (apply Qmult_le_0_compat; lra).
    lra.
  - lra.
  - apply setQ_le_r; [exact Hle |].
    assert (0 <= getQ bs' i * getQ rates i)
      by (apply Qmult_le_0_compat; lra).
    lra.
  - exact Hle.
Qed.

Lemma accrueLoop_length (n : nat) (bs : list Q) :
  length (accrueLoop rates n bs) = length bs.
Proof.
  unfold accrueLoop. generalize (seq 0 n) as idxs. intros idxs. revert bs.
  induction idxs as [| i idxs IH]; intros bs; simpl; [reflexivity |].
  rewrite IH. apply accrueAt_length.
Qed.

Lemma accrueLoop_nonneg (n : nat) (bs : list Q) :
  nonneg bs -> nonneg (accrueLoop rates n bs).
Proof.
  unfold accrueLoop. generalize (seq 0 n) as idxs. intros idxs. revert bs.
  induction idxs as [| i idxs IH]; intros bs Hbs; simpl; [exact Hbs |].
  apply IH. now apply accrueAt_nonneg.
Qed.

Lemma accrueLoop_le (n : nat) (bs bs' : list Q) :
  nonneg bs -> pointwise_le bs bs' ->
  pointwise_le (accrueLoop rates n bs) (accrueLoop rates n bs').
Proof.
  unfold accrueLoop. generalize (seq 0 n) as idxs. intros idxs. revert bs bs'.
  induction idxs as [| i idxs IH]; intros bs bs' Hbs Hle; simpl; [exact Hle |].
  apply IH; [now apply accrueAt_nonneg | now apply accrueAt_le].
Qed.

Lemma payMinAt_length (st : State) (i : nat) :
  length (fst (payMinAt mins st i)) = length (fst st).
Proof.
  destruct st as [bs budget]. unfold payMinAt.
  destruct (leb _ _); simpl; [reflexivity | apply length_setQ].
Qed.

Lemma payMinAt_good (st : State) (i : nat) :
  good st -> good (payMinAt mins st i).
Proof.
  destruct st as [bs budget]. intros [Hbs Hbud]. simpl in Hbs, Hbud.
  unfold payMinAt.
  pose proof (getQ_nonneg mins i mins_nonneg) as Hm.
  destruct (leb_spec (getQ bs i) 0) as [Hnp | Hpos]; [now split |].
  split; simpl.
  - apply setQ_nonneg; [exact Hbs | qsolve].
  - qsolve.
Qed.

Lemma payMinAt_ahead (st st' : State) (i : nat) :
  good st -> good st' -> ahead st st' ->
  ahead (payMinAt mins st i) (payMinAt mins st' i).
Proof.
  destruct st as [bs budget], st' as [bs' budget'].
  intros [Hbs Hbud] [Hbs' Hbud'] [Hle Hb]. simpl in *.
  unfold payMinAt.
  pose proof (getQ_nonneg mins i mins_nonneg) as Hm.
  pose proof (getQ_le _ _ i Hle) as Hi.
  pose proof (getQ_nonneg bs i Hbs) as H0.
  destruct (leb_spec (getQ bs i) 0) as [Hnp | Hpos];
    destruct (leb_spec (getQ bs' i) 0) as [Hnp' | Hpos'].
  - now split.
  - split; simpl.
    + apply setQ_le_r; [exact Hle | qsolve].
    + qsolve.
  - lra.
  - split; simpl.
    + apply setQ_le; [exact Hle | qsolve].
    + qsolve.
Qed.

Lemma payMinLoop_length (n : nat) (st : State) :
  length (fst (payMinLoop mins n st)) = length (fst st).
Proof.
  unfold payMinLoop. generalize (seq 0 n) as idxs. intros idxs. revert st.
  induction idxs as [| i idxs IH]; intros st; simpl; [reflexivity |].
  rewrite IH. apply payMinAt_length.
Qed.

Lemma payMinLoop_good (n : nat) (st : State) :
  good st -> good (payMinLoop mins n st).
Proof.
  unfold payMinLoop. generalize (seq 0 n) as idxs. intros idxs. revert st.
  induction idxs as [| i idxs IH]; intros st Hst; simpl; [exact Hst |].
  apply IH. now apply payMinAt_good.
Qed.

Lemma payMinLoop_ahead (n : nat) (st st' : State) :
  good st -> good st' -> ahead st st' ->
  ahead (payMinLoop mins n st) (payMinLoop mins n st').
Proof.
  unfold payMinLoop. generalize (seq 0 n) as idxs. intros idxs. revert st st'.
  induction idxs as [| i idxs IH]; intros st st' Hst Hst' Ha; simpl;
    [exact Ha |].
  apply IH; [now apply payMinAt_good | now apply payMinAt_good |].
  now apply payMinAt_ahead.
Qed.

Lemma payExtraLoop_length (idxs : list nat) (st : State) :
  length (fst (payExtraLoop idxs st)) = length (fst st).
Proof.
  destruct st as [bs budget].
  induction idxs as [| i idxs IH]; simpl; [reflexivity |].
  destruct (leb _ _); simpl; [exact IH | apply length_setQ].
Qed.

Lemma payExtraLoop_good (idxs : list nat) (st : State) :
  good st -> good (payExtraLoop idxs st).
Proof.
  destruct st as [bs budget]. intros [Hbs Hbud]. simpl in Hbs, Hbud.
  induction idxs as [| i idxs IH]; simpl; [now split |].
  destruct (leb_spec (getQ bs i) 0) as [Hnp | Hpos]; [exact IH |].
  split; simpl.
  - apply setQ_nonneg; [exact Hbs | qsolve].
  - qsolve.
Qed.

(** The extra payment only lowers balances. *)
Lemma payExtraLoop_decreases (idxs : list nat) (st : State) :
  good st -> pointwise_le (fst (payExtraLoop idxs st)) (fst st).
Proof.
  destruct st as [bs budget]. intros [Hbs Hbud]. simpl in Hbs, Hbud.
  induction idxs as [| i idxs IH]; simpl; [apply pointwise_le_refl |].
  destruct (leb_spec (getQ bs i) 0) as [Hnp | Hpos]; [exact IH |].
  simpl. apply setQ_le_l; [apply pointwise_le_refl | qsolve].
Qed.

Lemma payExtraLoop_le (idxs : list nat) (st st' : State) :
  good st -> good st' -> ahead st st' ->
  pointwise_le (fst (payExtraLoop idxs st)) (fst (payExtraLoop idxs st')).
Proof.
  destruct st as [bs budget], st' as [bs' budget'].
  intros [Hbs Hbud] [Hbs' Hbud'] [Hle Hb]. simpl in *.
  induction idxs as [| i idxs IH]; simpl; [exact Hle |].
  pose proof (getQ_le _ _ i Hle) as Hi.
  pose proof (getQ_nonneg bs i Hbs) as H0.
  destruct (leb_spec (getQ bs i) 0) as [Hnp | Hpos];
    destruct (leb_spec (getQ bs' i) 0) as [Hnp' | Hpos'].
  - exact IH.
  - simpl. apply setQ_le_r.
    + apply pointwise_le_trans with (l2 := bs); [| exact Hle].
      now apply (payExtraLoop_decreases idxs (bs, budget)).
    + pose proof (getQ_le _ _ i
        (payExtraLoop_decreases idxs (bs, budget) (conj Hbs Hbud))) as Hd.
      simpl in Hd. qsolve.
  - lra.
  - simpl. apply setQ_le; [exact Hle | qsolve].
Qed.

Lemma payExtra_length (st : State) :
  length (fst (payExtra st)) = length (fst st).
Proof.
  unfold payExtra.
  destruct (ltb _ _); [apply payExtraLoop_length | reflexivity].
Qed.

Lemma payExtra_good (st : State) : good st -> good (payExtra st).
Proof.
  intros Hst. unfold payExtra.
  destruct (ltb _ _); [now apply payExtraLoop_good | exact Hst].
Qed.

Lemma payExtra_le (st st' : State) :
  good st -> good st' -> ahead st st' ->
  pointwise_le (fst (payExtra st)) (fst (payExtra st')).
Proof.
  intros Hst Hst' Ha. unfold payExtra.
  pose proof Ha as [Hle Hb].
  rewrite (Forall2_length _ _ _ Hle).
  destruct (ltb_spec 0 (snd st)) as [Hpos | Hnp];
    destruct (ltb_spec 0 (snd st')) as [Hpos' | Hnp'].
  - now apply payExtraLoop_le.
  - apply pointwise_le_trans with (l2 := fst st); [| exact Hle].
    now apply payExtraLoop_decreases.
  - lra.
  - exact Hle.
Qed.

(** *** A whole month *)

Lemma monthStep_length (B : Q) (bs : list Q) :
  length (monthStep rates mins B bs) = length bs.
Proof.
  unfold monthStep. rewrite payExtra_length, payMinLoop_length. simpl.
  apply accrueLoop_length.
Qed.

Lemma monthStep_nonneg (B : Q) (bs : list Q) :
  0 <= B -> nonneg bs -> nonneg (monthStep rates mins B bs).
Proof.
  intros HB Hbs. unfold monthStep.
  apply payExtra_good, payMinLoop_good. split; simpl; [| exact HB].
  now apply accrueLoop_nonneg.
Qed.

(** Lower balances and a larger budget give lower balances a month later. *)
Lemma monthStep_le (B B' : Q) (bs bs' : list Q) :
  0 <= B' -> B' <= B -> nonneg bs -> nonneg bs' -> pointwise_le bs bs' ->
  pointwise_le (monthStep rates mins B bs) (monthStep rates mins B' bs').
Proof.
  intros HB' HBB Hbs Hbs' Hle. unfold monthStep.
  assert (HB : 0 <= B) by lra.
  rewrite !accrueLoop_length, (Forall2_length _ _ _ Hle).
  assert (Hg : good (accrueLoop rates (length bs') bs, B))
    by (split; simpl; [now apply accrueLoop_nonneg | exact HB]).
  assert (Hg' : good (accrueLoop rates (length bs') bs', B'))
    by (split; simpl; [now apply accrueLoop_nonneg | exact HB']).
  apply payExtra_le; try now apply payMinLoop_good.
  apply payMinLoop_ahead; [exact Hg | exact Hg' |].
  split; simpl; [now apply accrueLoop_le | exact HBB].
Qed.

End Phases.

(** *** The total still owed *)

Lemma sumBy_acc {A : Type} (f : A -> Q) (l : list A) (a : Q) :
  fold_left (fun s x => s + f x) l a == a + sumBy f l.
Proof.
  unfold sumBy. revert a. induction l as [| x l IH]; intros a; simpl.
  - lra.
  - rewrite (IH (a + f x)), (IH (0 + f x)). lra.
Qed.

Lemma sumBy_cons {A : Type} (f : A -> Q) (x : A) (l : list A) :
  sumBy f (x :: l) == f x + sumBy f l.
Proof. unfold sumBy at 1. simpl. rewrite sumBy_acc. lra. Qed.

Lemma totalRemaining_nonneg (bs : list Q) : 0 <= totalRemaining bs.
Proof.
  unfold totalRemaining. induction bs as [| b bs IH].
  - unfold sumBy. simpl. lra.
  - rewrite sumBy_cons. qsolve.
Qed.

Lemma totalRemaining_le (bs bs' : list Q) :
  pointwise_le bs bs' -> totalRemaining bs <= totalRemaining bs'.
Proof.
  unfold totalRemaining. induction 1 as [| b b' bs bs' Hb Hbs IH].
  - lra.
  - rewrite !sumBy_cons. qsolve.
Qed.

(** *** The [while] loop *)

Section Loop.

Variables rates mins : list Q.

Lemma payoffLoop_bounds (B : Q) (fuel months : nat) (bs : list Q) :
  (months <= payoffLoop rates mins B fuel months bs <= months + fuel)%nat.
Proof.
  revert months bs. induction fuel as [| fuel IH]; intros months bs; simpl.
  - lia.
  - destruct (leb _ _); [lia |].
    specialize (IH (S months) (monthStep rates mins B bs)). lia.
Qed.

(** While the total stays above the threshold the loop runs out its
    iterations. *)
Lemma payoffLoop_saturates (B : Q) (fuel months : nat) (bs : list Q) :
  (forall k, (k < fuel)%nat ->
     EPSILON < totalRemaining (Nat.iter k (monthStep rates mins B) bs)) ->
  payoffLoop rates mins B fuel months bs = (months + fuel)%nat.
Proof.
  revert months bs. induction fuel as [| fuel IH]; intros months bs Hk; simpl.
  - lia.
  - destruct (leb_spec (totalRemaining bs) EPSILON) as [Hle | Hlt].
    + specialize (Hk 0%nat ltac:(lia)). simpl in Hk. lra.
    + rewrite IH; [lia |]. intros k Hlt'.
      rewrite <- Nat.iter_succ_r. apply Hk. lia.
Qed.

(** When the loop stops before its cap, the total is within the
    threshold. *)
Lemma payoffLoop_paid (B : Q) (fuel months : nat) (bs : list Q) :
  (payoffLoop rates mins B fuel months bs < months + fuel)%nat ->
  totalRemaining
    (Nat.iter (payoffLoop rates mins B fuel months bs - months)
       (monthStep rates mins B) bs) <= EPSILON.
Proof.
  revert months bs. induction fuel as [| fuel IH]; intros months bs; simpl.
  - lia.
  - destruct (leb_spec (totalRemaining bs) EPSILON) as [Hle | Hlt].
    + intros _. now rewrite Nat.sub_diag.
    + intros H.
      pose proof (payoffLoop_bounds B fuel (S months)
                    (monthStep rates mins B bs)) as Hb.
      specialize (IH (S months) (monthStep rates mins B bs) ltac:(lia)).
      replace (payoffLoop rates mins B fuel (S months)
                 (monthStep rates mins B bs) - months)%nat
        with (S (payoffLoop rates mins B fuel (S months)
                 (monthStep rates mins B bs) - S months)) by lia.
      now rewrite Nat.iter_succ_r.
Qed.

Hypothesis rates_nonneg : nonneg rates.
Hypothesis mins_nonneg : nonneg mins.

(** With lower balances and a larger budget the loop stops no later. *)
Lemma payoffLoop_le (B B' : Q) (fuel months : nat) (bs bs' : list Q) :
  0 <= B' -> B' <= B -> nonneg bs -> nonneg bs' -> pointwise_le bs bs' ->
  (payoffLoop rates mins B fuel months bs
   <= payoffLoop rates mins B' fuel months bs')%nat.
Proof.
  intros HB' HBB. revert months bs bs'.
  induction fuel as [| fuel IH]; intros months bs bs' Hbs Hbs' Hle; simpl.
  - lia.
  - pose proof (totalRemaining_le _ _ Hle) as Ht.
    destruct (leb_spec (totalRemaining bs) EPSILON) as [H1 | H1];
      destruct (leb_spec (totalRemaining bs') EPSILON) as [H2 | H2].
    + lia.
    + pose proof (payoffLoop_bounds B' fuel (S months)
                    (monthStep rates mins B' bs')). lia.
    + lra.
    + apply IH.
      * apply monthStep_nonneg; trivial; lra.
      * apply monthStep_nonneg; trivial.
      * now apply monthStep_le.
Qed.

End Loop.

End PayoffFacts.

(** ** Claims on the payoff simulator *)

Module PayoffClaims.
Import Payoff PayoffFacts.

(** *** A single debt *)

Lemma accrueLoop_single (r b : Q) :
  0 < b -> accrueLoop [r] 1 [b] = [Qred (b + b * r)].
Proof.
  intros Hb. unfold accrueLoop. cbn [seq fold_left]. unfold accrueAt.
  change (getQ [b] 0) with b. change (getQ [r] 0) with r.
  destruct (ltb_spec 0 b); [reflexivity | lra].
Qed.

Lemma payMinLoop_single (m b budget : Q) :
  0 < b ->
  payMinLoop [m] 1 ([b], budget)
  = ([Qred (b - min3 m b budget)], Qred (budget - min3 m b budget)).
Proof.
  intros Hb. unfold payMinLoop. cbn [seq fold_left]. unfold payMinAt.
  change (getQ [b] 0) with b. change (getQ [m] 0) with m.
  destruct (leb_spec b 0); [lra | reflexivity].
Qed.

Lemma payExtra_spent (bs : list Q) (budget : Q) :
  budget <= 0 -> payExtra (bs, budget) = (bs, budget).
Proof.
  intros Hb. unfold payExtra. cbn [snd].
  destruct (ltb_spec 0 budget); [lra | reflexivity].
Qed.

Lemma totalRemaining_single (b : Q) : totalRemaining [b] == Qmax b 0.
Proof. unfold totalRemaining, sumBy. simpl. lra. Qed.

(** One month of a single debt: the balance goes down by at most the
    budget less the interest. *)
Lemma monthStep_single_lower (r m B b : Q) :
  0 < b -> 0 <= r -> 0 <= m -> 0 <= B ->
  exists b', monthStep [r] [m] B [b] = [b'] /\ b + b * r - B <= b'.
Proof.
  intros Hb Hr Hm HB.
  assert (Hbr : 0 <= b * r) by (apply Qmult_le_0_compat; lra).
  assert (Hacc : 0 < Qred (b + b * r)) by (rewrite Qred_correct; lra).
  unfold monthStep. cbn [length].
  rewrite accrueLoop_single by exact Hb. cbn [length].
  rewrite payMinLoop_single by exact Hacc.
  unfold payExtra. cbn [fst snd length seq payExtraLoop].
  match goal with
  | |- context [getQ [?x] 0] => change (getQ [x] 0) with x
  end.
  destruct (ltb_spec 0 (Qred (B - min3 m (Qred (b + b * r)) B)))
    as [Hleft | Hspent].
  - destruct (leb_spec
                (Qred (Qred (b + b * r) - min3 m (Qred (b + b * r)) B)) 0)
      as [Hpaid | Howed].
    + eexists. split; [reflexivity |].
      revert Hacc Hleft Hpaid. unfold min3. qred_cases. minmax_cases;
        intros; lra.
    + eexists. split; [reflexivity |].
      revert Hacc Hleft Howed. unfold min3. qred_cases. minmax_cases;
        intros; lra.
  - eexists. split; [reflexivity |].
    revert Hacc Hspent. unfold min3. qred_cases. minmax_cases;
      intros; lra.
Qed.

(** A single debt whose monthly interest is at least the budget never
    gets smaller. *)
Lemma balancesAfter_interest_only (d : DebtItem.t) (B : Q) (k : nat) :
  EPSILON < DebtItem.balance d -> 0 <= DebtItem.rate d ->
  0 <= DebtItem.minimumPayment d -> 0 <= B ->
  B <= DebtItem.balance d * (DebtItem.rate d / 100 / 12) ->
  EPSILON < totalRemaining (balancesAfter [d] B k).
Proof.
  intros Hbal Hrate Hmin HB Hint. unfold EPSILON in *.
  unfold balancesAfter. cbn [map monthlyRates].
  set (r := DebtItem.rate d / 100 / 12) in *.
  assert (Hr : 0 <= r).
  { unfold r, Qdiv. apply Qmult_le_0_compat; [apply Qmult_le_0_compat |];
      [exact Hrate | discriminate | discriminate]. }
  assert (Hk : exists b,
             Nat.iter k (monthStep [r] [DebtItem.minimumPayment d] B)
               [DebtItem.balance d] = [b]
             /\ DebtItem.balance d <= b).
  { induction k as [| k (b & Hb & Hle)].
    - eexists. split; [reflexivity | lra].
    - rewrite Nat.iter_succ, Hb.
      destruct (monthStep_single_lower r (DebtItem.minimumPayment d) B b)
        as (b' & -> & Hb'); try lra.
      exists b'. split; [reflexivity |].
      assert (0 <= (b - DebtItem.balance d) * r)
        by (apply Qmult_le_0_compat; lra).
      lra. }
  destruct Hk as (b & -> & Hle).
  rewrite totalRemaining_single. minmax_cases; lra.
Qed.

(** With a positive budget, the simulator then answers the cap. *)
Lemma estimatePayoffMonths_interest_only (d : DebtItem.t) (B : Q) :
  EPSILON < DebtItem.balance d -> 0 <= DebtItem.rate d ->
  0 <= DebtItem.minimumPayment d -> 0 < B ->
  B <= DebtItem.balance d * (DebtItem.rate d / 100 / 12) ->
  estimatePayoffMonths [d] B = 600%nat.
Proof.
  intros Hbal Hrate Hmin HB Hint.
  unfold estimatePayoffMonths.
  destruct (leb_spec B 0); [lra |].
  cbn [length Nat.eqb orb].
  rewrite payoffLoop_saturates; [reflexivity |].
  intros k _. apply (balancesAfter_interest_only d B k); trivial. lra.
Qed.

(** 1000 owed at 24 percent a year accrues 20 a month: a budget of 10
    never repays it. *)
Example negative_amortization :
  estimatePayoffMonths [DebtItem.mk "card" 1000 24 10] 10 = 600%nat.
Proof.
  apply estimatePayoffMonths_interest_only;
    first [reflexivity | discriminate].
Qed.

Lemma staysAbove_spec (step : list Q -> list Q) (n : nat) (bs : list Q) :
  staysAbove step n bs = true ->
  forall k, (k < n)%nat -> EPSILON < totalRemaining (Nat.iter k step bs).
Proof.
  revert bs. induction n as [| n IH]; intros bs H k Hk; [lia |].
  simpl in H. apply andb_prop in H as [H1 H2].
  destruct k as [| k].
  - simpl.
    destruct (ltb_spec EPSILON (totalRemaining bs));
      [assumption | discriminate].
  - rewrite Nat.iter_succ_r. apply IH; [exact H2 | lia].
Qed.

Lemma estimatePayoffMonths_guard (debts : list DebtItem.t) (B : Q) :
  B <= 0 -> estimatePayoffMonths debts B = 0%nat.
Proof.
  intros HB. unfold estimatePayoffMonths.
  destruct (leb_spec B 0); [now rewrite orb_true_r | lra].
Qed.

Lemma estimatePayoffMonths_empty (B : Q) : estimatePayoffMonths [] B = 0%nat.
Proof. reflexivity. Qed.

(** C1 (as amended).  [estimatePayoffMonths] is a total function whose
    result is at most 600, for every list of debts and every budget.  When
    the budget is positive and the total still owed is above 0.01 at the
    start of each of the 600 months the loop may run, the result is exactly
    600.  (With a budget of 0 or less the guard of the first line returns 0
    instead, whatever the debts.) *)
Theorem estimatePayoffMonths_cap (debts : list DebtItem.t) (B : Q) :
  (estimatePayoffMonths debts B <= 600)%nat /\
  (B <= 0 -> estimatePayoffMonths debts B = 0%nat) /\
  (0 < B ->
   (forall k, (k < 600)%nat ->
      EPSILON < totalRemaining (balancesAfter debts B k)) ->
   estimatePayoffMonths debts B = 600%nat).
Proof.
  split; [| split].
  - unfold estimatePayoffMonths. destruct (_ || _); [lia |].
    pose proof (payoffLoop_bounds (monthlyRates debts)
                  (map DebtItem.minimumPayment debts) B MAX_MONTHS 0
                  (map DebtItem.balance debts)) as Hb.
    unfold MAX_MONTHS in *. lia.
  - apply estimatePayoffMonths_guard.
  - intros HB Hk. unfold estimatePayoffMonths.
    destruct debts as [| d debts].
    + specialize (Hk 0%nat ltac:(lia)). vm_compute in Hk. discriminate.
    + destruct (leb_spec B 0) as [Hle | _]; [lra |]. simpl orb. cbv iota.
      rewrite payoffLoop_saturates; [reflexivity |]. exact Hk.
Qed.

(** A debt of 1000 without interest, repaid 1 a month, is not repaid
    after 50 years: the simulator answers 600. *)
Lemma estimatePayoffMonths_cap_witness :
  let debts := [DebtItem.mk "loan" 1000 0 1] in
  (estimatePayoffMonths debts 1 <= 600)%nat /\
  estimatePayoffMonths debts 1 = 600%nat.
Proof.
  intros debts.
  destruct (estimatePayoffMonths_cap debts 1) as (Hle & _ & Hcap).
  split; [exact Hle |].
  apply Hcap; [reflexivity |].
  apply staysAbove_spec. vm_compute. reflexivity.
Defined.

(** C1, as stated, fails for a budget of 0: a card of 1000 at 12 percent
    on which nothing is paid grows every month, so the total stays above
    the threshold for all 600 months, and the answer is 0, not 600. *)
Lemma estimatePayoffMonths_cap_counterexample :
  let debts := [DebtItem.mk "card" 1000 12 0] in
  (forall k, (k < 600)%nat ->
     EPSILON < totalRemaining (balancesAfter debts 0 k)) /\
  estimatePayoffMonths debts 0 <> 600%nat.
Proof.
  split.
  - intros k _. apply balancesAfter_interest_only;
      first [reflexivity | discriminate].
  - vm_compute. discriminate.
Qed.

(** The debts the claims speak of: balances, rates and minimum payments
    are not negative. *)
Lemma wellFormed_balances (debts : list DebtItem.t) :
  Forall wellFormed debts -> nonneg (map DebtItem.balance debts).
Proof.
  intros H. unfold nonneg. rewrite Forall_map.
  eapply Forall_impl; [exact H |]. intros d (Hb & _ & _). exact Hb.
Qed.

Lemma wellFormed_rates (debts : list DebtItem.t) :
  Forall wellFormed debts -> nonneg (monthlyRates debts).
Proof.
  intros H. unfold nonneg, monthlyRates. rewrite Forall_map.
  eapply Forall_impl; [exact H |]. intros d (_ & Hr & _). simpl.
  unfold Qdiv. apply Qmult_le_0_compat; [apply Qmult_le_0_compat |];
    [exact Hr | discriminate | discriminate].
Qed.

Lemma wellFormed_mins (debts : list DebtItem.t) :
  Forall wellFormed debts -> nonneg (map DebtItem.minimumPayment debts).
Proof.
  intros H. unfold nonneg. rewrite Forall_map.
  eapply Forall_impl; [exact H |]. intros d (_ & _ & Hm). exact Hm.
Qed.

(** C2 (as amended).  For debts with non-negative balances, rates and
    minimum payments, and budgets [B1 <= B2] that are both positive (or
    both at most 0, where the answer is 0 twice), the larger budget never
    gives more months to payoff. *)
Theorem estimatePayoffMonths_budget_monotone
    (debts : list DebtItem.t) (B1 B2 : Q) :
  Forall wellFormed debts ->
  0 < B1 \/ B2 <= 0 ->
  B1 <= B2 ->
  (estimatePayoffMonths debts B2 <= estimatePayoffMonths debts B1)%nat.
Proof.
  intros Hwf Hsign HB.
  destruct (Qlt_le_dec 0 B2) as [Hpos2 | Hnp2].
  - assert (Hpos1 : 0 < B1) by (destruct Hsign; [assumption | lra]).
    unfold estimatePayoffMonths.
    destruct (length debts =? 0)%nat; [simpl; lia |].
    destruct (leb_spec B1 0); [lra |]. destruct (leb_spec B2 0); [lra |].
    simpl orb. cbv iota.
    apply payoffLoop_le.
    + now apply wellFormed_rates.
    + now apply wellFormed_mins.
    + lra.
    + exact HB.
    + now apply wellFormed_balances.
    + now apply wellFormed_balances.
    + apply pointwise_le_refl.
  - rewrite (estimatePayoffMonths_guard debts B2 Hnp2). lia.
Qed.

Lemma estimatePayoffMonths_budget_monotone_witness :
  let debts := [DebtItem.mk "A" 500 20 25; DebtItem.mk "B" 5000 5 100] in
  (estimatePayoffMonths debts 200 <= estimatePayoffMonths debts 125)%nat.
Proof.
  intros debts.
  apply (estimatePayoffMonths_budget_monotone debts 125 200).
  - repeat constructor; simpl; discriminate.
  - left. reflexivity.
  - discriminate.
Defined.

(** C2, as stated for every pair [B1 <= B2], fails when [B1] is 0 and [B2]
    is positive: the guard answers 0 months for the budget 0, and a
    positive budget needs months. *)
Lemma estimatePayoffMonths_budget_monotone_counterexample :
  let debts := [DebtItem.mk "loan" 100 0 10] in
  Forall wellFormed debts /\ 0 <= 1 /\
  ~ (estimatePayoffMonths debts 1 <= estimatePayoffMonths debts 0)%nat.
Proof.
  split; [| split].
  - repeat constructor; simpl; discriminate.
  - discriminate.
  - vm_compute. intros H.
    repeat (apply le_S_n in H). inversion H.
Qed.

(** The loops, one iteration at a time: the state after [S n] iterations
    is the body at index [n] applied to the state after [n] iterations. *)
Lemma accrueLoop_succ (rates : list Q) (n : nat) (bs : list Q) :
  accrueLoop rates (S n) bs = accrueAt rates (accrueLoop rates n bs) n.
Proof. unfold accrueLoop. now rewrite seq_S, fold_left_app. Qed.

Lemma payMinLoop_succ (mins : list Q) (n : nat) (st : State) :
  payMinLoop mins (S n) st = payMinAt mins (payMinLoop mins n st) n.
Proof. unfold payMinLoop. now rewrite seq_S, fold_left_app. Qed.

(** A minimum payment is capped by the scheduled amount, the balance of
    the debt and what is left of the budget. *)
Lemma payMinAt_capped (mins : list Q) (st : State) (i : nat) :
  nonneg mins -> good st ->
  let paid := snd st - snd (payMinAt mins st i) in
  0 <= paid /\ paid <= getQ mins i /\ paid <= getQ (fst st) i
  /\ paid <= snd st.
Proof.
  destruct st as [bs budget]. intros Hmins [Hbs Hbud]. simpl in Hbs, Hbud.
  pose proof (getQ_nonneg mins i Hmins) as Hm.
  pose proof (getQ_nonneg bs i Hbs) as Hb.
  unfold payMinAt.
  destruct (leb_spec (getQ bs i) 0) as [Hnp | Hpos]; cbn [fst snd].
  - repeat split; lra.
  - repeat split; qsolve.
Qed.

Lemma balancesAfter_nonneg (debts : list DebtItem.t) (B : Q) (k : nat) :
  Forall wellFormed debts -> 0 <= B -> nonneg (balancesAfter debts B k).
Proof.
  intros Hwf HB. unfold balancesAfter.
  induction k as [| k IH]; cbn [Nat.iter nat_rect].
  - now apply wellFormed_balances.
  - apply monthStep_nonneg;
      [now apply wellFormed_rates | now apply wellFormed_mins | exact HB
      | exact IH].
Qed.

(** C10.  With non-negative balances, rates and minimum payments, and a
    budget that is not negative, at every month [k] of the simulation:
    the balances at the start of the month are non-negative; they still
    are after [n] iterations of the interest loop; after [n] iterations of
    the minimum-payment loop balances and remaining budget are
    non-negative, and the next payment is at most the minimum payment, the
    balance of its debt and the remaining budget; and after the extra
    payment balances and budget are non-negative. *)
Theorem balances_never_negative
    (debts : list DebtItem.t) (B : Q) (k n : nat) :
  Forall wellFormed debts -> 0 <= B ->
  let rates := monthlyRates debts in
  let mins := map DebtItem.minimumPayment debts in
  let bs := balancesAfter debts B k in
  let accrued := accrueLoop rates (length bs) bs in
  let st := payMinLoop mins n (accrued, B) in
  let paid := snd st - snd (payMinLoop mins (S n) (accrued, B)) in
  nonneg bs /\
  nonneg (accrueLoop rates n bs) /\
  good st /\
  (0 <= paid /\ paid <= getQ mins n /\ paid <= getQ (fst st) n
   /\ paid <= snd st) /\
  good (payExtra (payMinLoop mins (length accrued) (accrued, B))) /\
  nonneg (balancesAfter debts B (S k)).
Proof.
  intros Hwf HB rates mins bs accrued st paid.
  pose proof (wellFormed_rates debts Hwf) as Hrates.
  pose proof (wellFormed_mins debts Hwf) as Hmins.
  assert (Hbs : nonneg bs) by now apply balancesAfter_nonneg.
  assert (Hacc : good (accrued, B))
    by (split; [now apply accrueLoop_nonneg | exact HB]).
  assert (Hst : good st) by now apply payMinLoop_good.
  split; [exact Hbs |].
  split; [now apply accrueLoop_nonneg |].
  split; [exact Hst |].
  split.
  - subst paid. rewrite payMinLoop_succ. now apply payMinAt_capped.
  - split.
    + apply payExtra_good. now apply payMinLoop_good.
    + now apply balancesAfter_nonneg.
Qed.

Lemma balances_never_negative_witness :
  let debts := [DebtItem.mk "A" 500 20 25; DebtItem.mk "B" 5000 5 100] in
  let rates := monthlyRates debts in
  let mins := map DebtItem.minimumPayment debts in
  let bs := balancesAfter debts 125 3 in
  let accrued := accrueLoop rates (length bs) bs in
  let st := payMinLoop mins 1 (accrued, 125) in
  let paid := snd st - snd (payMinLoop mins 2 (accrued, 125)) in
  nonneg bs /\
  nonneg (accrueLoop rates 1 bs) /\
  good st /\
  (0 <= paid /\ paid <= getQ mins 1 /\ paid <= getQ (fst st) 1
   /\ paid <= snd st) /\
  good (payExtra (payMinLoop mins (length accrued) (accrued, 125))) /\
  nonneg (balancesAfter debts 125 4).
Proof.
  intros debts.
  apply (balances_never_negative debts 125 3 1).
  - repeat constructor; simpl; discriminate.
  - discriminate.
Defined.

(** *** The scenarios of the specification *)

(** 1200 owed at 24 percent, repaid 50 a month: 34 months, short of the
    cap. *)
Example amortization_scenario :
  estimatePayoffMonths [DebtItem.mk "card" 1200 24 50] 50 = 34%nat.
Proof. vm_compute. reflexivity. Qed.

(** When the debt with the highest rate also has the smallest balance,
    the avalanche and snowball orders coincide and so do the two plans. *)
Example coinciding_orders :
  let debts :=
    [DebtLiability.mk "B" other 5000 5 100 None;
     DebtLiability.mk "A" credit_card 500 20 25 None] in
  Web.avalanche debts = Web.snowball debts /\
  map DebtItem.name (Web.avalanche debts) = ["A"; "B"] /\
  Web.totalMin debts == 125 /\
  estimatePayoffMonths (Web.avalanche debts) (Web.totalMin debts)
  = estimatePayoffMonths (Web.snowball debts) (Web.totalMin debts).
Proof.
  intros debts.
  assert (H : Web.avalanche debts = Web.snowball debts) by reflexivity.
  split; [exact H |]. split; [reflexivity |]. split; [reflexivity |].
  exact (f_equal (fun l => estimatePayoffMonths l (Web.totalMin debts)) H).
Qed.

End PayoffClaims.

(** ** The simulator in binary64: the round trip *)

Module Payoff64Claims.
Import Binary64 Binary64Facts Payoff64.









End Payoff64Claims.

(** ** Claims on the two engines *)

Module EngineFacts.

(** *** Sums over a classified list *)

Lemma sumBy_nil {A : Type} (f : A -> Q) : sumBy f [] = 0.
Proof. reflexivity. Qed.

Lemma sumBy_filter_split {A : Type} (f : A -> Q) (p : A -> bool)
    (l : list A) :
  sumBy f (List.filter p l) + sumBy f (List.filter (fun x => negb (p x)) l)
  == sumBy f l.
Proof.
  induction l as [| x l IH]; simpl.
  - unfold sumBy. simpl. lra.
  - destruct (p x); simpl; rewrite !PayoffFacts.sumBy_cons; lra.
Qed.

(** *** Sums of whole amounts *)

Lemma whole_nonneg (q : Q) : whole q -> 0 <= q.
Proof.
  intros (z & Hz & ->). change 0 with (inject_Z 0). now rewrite <- Zle_Qle.
Qed.

Lemma whole_plus (a b : Q) : whole a -> whole b -> whole (a + b).
Proof.
  intros (za & Ha & Ea) (zb & Hb & Eb). exists (za + zb)%Z.
  split; [lia |]. now rewrite inject_Z_plus, Ea, Eb.
Qed.

Lemma whole_compat (a b : Q) : a == b -> whole a -> whole b.
Proof.
  intros E (z & Hz & Ez). exists z. split; [exact Hz | now rewrite <- E].
Qed.

Lemma round_whole_amount (q : Q) :
  whole q -> q < 2 ^ 53 -> Binary64.round q == q.
Proof.
  intros (z & Hz & Ez) Hlt.
  apply Binary64Facts.round_exact with (y := q); [reflexivity |].
  rewrite (Binary64Facts.round_compat q (inject_Z z) Ez), Ez.
  apply Binary64Facts.round_whole. split; [exact Hz |].
  rewrite Ez, (Binary64Facts.Qpower_2_whole 53) in Hlt by lia.
  now rewrite Zlt_Qlt.
Qed.

Lemma sumBy_whole {A : Type} (f : A -> Q) (l : list A) :
  Forall (fun x => whole (f x)) l -> whole (sumBy f l).
Proof.
  induction 1 as [| x l Hx _ IH].
  - exists 0%Z. split; [lia | reflexivity].
  - apply (whole_compat (f x + sumBy f l));
      [now rewrite PayoffFacts.sumBy_cons | now apply whole_plus].
Qed.

Lemma sum_whole_from {A : Type} (f : A -> Q) (l : list A) (acc : Q) :
  whole acc -> Forall (fun x => whole (f x)) l ->
  acc + sumBy f l < 2 ^ 53 ->
  fold_left (fun s x => Binary64.add s (Binary64.read (f x))) l acc
  == acc + sumBy f l.
Proof.
  intros Hacc Hl. revert acc Hacc.
  induction Hl as [| x l Hx Hl IH]; intros acc Hacc Hlt; cbn [fold_left].
  - rewrite sumBy_nil. lra.
  - rewrite PayoffFacts.sumBy_cons in Hlt.
    pose proof (whole_nonneg _ (sumBy_whole f l Hl)) as Hrest.
    pose proof (whole_nonneg _ Hacc) as Hacc0.
    pose proof (whole_nonneg _ Hx) as Hx0.
    assert (Hread : Binary64.read (f x) == f x)
      by (apply round_whole_amount; [exact Hx | lra]).
    assert (Hstep : Binary64.add acc (Binary64.read (f x)) == acc + f x).
    { unfold Binary64.add.
      apply Binary64Facts.round_exact; [now rewrite Hread |].
      apply round_whole_amount; [now apply whole_plus | lra]. }
    rewrite IH.
    + rewrite Hstep, PayoffFacts.sumBy_cons. lra.
    + apply (whole_compat (acc + f x));
        [now rewrite Hstep | now apply whole_plus].
    + rewrite Hstep. lra.
Qed.

(** A sum of whole amounts that stays below [2^53] is added without
    rounding. *)
Lemma sum_whole {A : Type} (f : A -> Q) (l : list A) :
  Forall (fun x => whole (f x)) l -> sumBy f l < 2 ^ 53 ->
  Binary64.sum (fun x => Binary64.read (f x)) l == sumBy f l.
Proof.
  intros Hl Hlt. unfold Binary64.sum.
  rewrite sum_whole_from; [lra | | exact Hl | lra].
  exists 0%Z. split; [lia | reflexivity].
Qed.

Lemma Forall_whole_filter {A : Type} (f : A -> Q) (p : A -> bool)
    (l : list A) :
  Forall (fun x => whole (f x)) l ->
  Forall (fun x => whole (f x)) (List.filter p l).
Proof.
  induction 1 as [| x l Hx _ IH]; simpl; [constructor |].
  destruct (p x); [now constructor | exact IH].
Qed.

Lemma filter_partition_Permutation {A : Type} (p : A -> bool) (l : list A) :
  Permutation l (List.filter p l ++ List.filter (fun x => negb (p x)) l).
Proof.
  induction l as [| x l IH]; simpl; [constructor |].
  destruct (p x); simpl.
  - now constructor.
  - now apply Permutation_cons_app.
Qed.

Lemma filter_nonempty {A : Type} (p : A -> bool) (l : list A) :
  Exists (fun x => p x = true) l -> (0 <? length (List.filter p l))%nat = true.
Proof.
  induction 1 as [x l Hx | x l _ IH]; simpl.
  - now rewrite Hx.
  - destruct (p x); [reflexivity | exact IH].
Qed.

Lemma isGoodDebt_spec (t : DebtType) (r : Q) :
  Web.isGoodDebt t r = true
  <-> t = mortgage \/ (t = student_loan /\ r <= 7).
Proof.
  unfold Web.isGoodDebt. split.
  - destruct t; simpl; try discriminate; intros H.
    + right. split; [reflexivity |].
      destruct (leb_spec r 7); [assumption | discriminate].
    + now left.
  - intros [-> | [-> Hr]]; simpl; [reflexivity |].
    destruct (leb_spec r 7); [reflexivity | lra].
Qed.

(** *** Pushing onto the array *)

Lemma In_push (x : Insight) (c s : string) (t : InsightText)
    (ins : list Insight) :
  In x ins -> In x (push c s t ins).
Proof. intros H. unfold push. apply in_or_app. now left. Qed.

Lemma In_push_new (c s : string) (t : InsightText) (ins : list Insight) :
  In (mkInsight (S (length ins)) c s t) (push c s t ins).
Proof. unfold push. apply in_or_app. right. now left. Qed.

Lemma Forall_push (P : Insight -> Prop) (c s : string) (t : InsightText)
    (ins : list Insight) :
  Forall P ins -> (forall n, P (mkInsight n c s t)) ->
  Forall P (push c s t ins).
Proof.
  intros Hins Hnew. unfold push. apply Forall_app. split; [exact Hins |].
  constructor; [apply Hnew | constructor].
Qed.

Ltac case_conditions :=
  repeat match goal with
  | |- context [match ?a with Some _ => _ | None => _ end] => destruct a
  | |- context [if ?c then _ else _] => destruct c
  end.

Create HintDb engine_blocks.

#[local] Hint Unfold
  Web.goodVsBadDebtOverview Web.highInterestWarning Web.minimumPaymentWarning
  Web.annualInterestCost Web.debtPayoffInsights Web.debtAboveReturn
  Web.creditCardWhileInvesting Web.debtToAssetBand Web.diversification
  Web.emergencyBuffer Web.debtFree Web.retirementShare
  Main.goodVsBadDebtOverview Main.highInterestWarning
  Main.minimumPaymentWarning Main.annualInterestCost Main.debtPayoffInsights
  Main.debtAboveReturn Main.creditCardWhileInvesting Main.debtToAssetBand
  Main.diversification Main.emergencyBuffer Main.yearsToRetirementNote
  Main.ageAppropriateRisk Main.highEquityExposure Main.debtFree
  Main.retirementShare : engine_blocks.

Ltac solve_keeps :=
  intros ins x Hx; autounfold with engine_blocks; cbv zeta;
  case_conditions; repeat apply In_push; exact Hx.

Ltac solve_pushesOnly :=
  intros ins Hins; autounfold with engine_blocks; cbv zeta;
  case_conditions;
  repeat (apply Forall_push; [| intros n; split; reflexivity]);
  exact Hins.

Section Blocks.

Variable env : Env.
Variable realEstate : list RealEstateHolding.t.
Variable stocks : list StockHolding.t.
Variable crypto : list CryptoHolding.t.
Variable retirement : list RetirementAccount.t.
Variable debts : list DebtLiability.t.
Variable age : option Z.

(** Every block keeps the insights pushed before it. *)
Lemma Web_keeps_goodVsBadDebtOverview :
  keeps (Web.goodVsBadDebtOverview realEstate debts).
Proof. solve_keeps. Qed.

Lemma Web_keeps_highInterestWarning :
  keeps (Web.highInterestWarning realEstate stocks crypto retirement debts).
Proof. solve_keeps. Qed.

Lemma Web_keeps_minimumPaymentWarning :
  keeps (Web.minimumPaymentWarning debts).
Proof. solve_keeps. Qed.

Lemma Web_keeps_annualInterestCost :
  keeps (Web.annualInterestCost debts).
Proof. solve_keeps. Qed.

Lemma Web_keeps_debtPayoffInsights :
  keeps (Web.debtPayoffInsights realEstate stocks crypto retirement debts).
Proof. solve_keeps. Qed.

Lemma Web_keeps_debtAboveReturn :
  keeps (Web.debtAboveReturn env stocks debts).
Proof. solve_keeps. Qed.

Lemma Web_keeps_creditCardWhileInvesting :
  keeps (Web.creditCardWhileInvesting stocks crypto debts).
Proof. solve_keeps. Qed.

Lemma Web_keeps_debtToAssetBand :
  keeps (Web.debtToAssetBand realEstate stocks crypto retirement debts).
Proof. solve_keeps. Qed.

Lemma Web_keeps_diversification :
  keeps (Web.diversification stocks crypto retirement).
Proof. solve_keeps. Qed.

Lemma Web_keeps_emergencyBuffer :
  keeps (Web.emergencyBuffer realEstate stocks crypto debts).
Proof. solve_keeps. Qed.

Lemma Web_keeps_debtFree :
  keeps (Web.debtFree realEstate stocks crypto retirement debts).
Proof. solve_keeps. Qed.

Lemma Web_keeps_retirementShare :
  keeps (Web.retirementShare realEstate stocks crypto retirement debts).
Proof. solve_keeps. Qed.

Lemma Main_keeps_goodVsBadDebtOverview :
  keeps (Main.goodVsBadDebtOverview realEstate debts).
Proof. solve_keeps. Qed.

Lemma Main_keeps_highInterestWarning :
  keeps (Main.highInterestWarning realEstate stocks crypto retirement debts).
Proof. solve_keeps. Qed.

Lemma Main_keeps_minimumPaymentWarning :
  keeps (Main.minimumPaymentWarning debts).
Proof. solve_keeps. Qed.

Lemma Main_keeps_annualInterestCost :
  keeps (Main.annualInterestCost debts).
Proof. solve_keeps. Qed.

Lemma Main_keeps_debtPayoffInsights :
  keeps (Main.debtPayoffInsights realEstate stocks crypto retirement debts).
Proof. solve_keeps. Qed.

Lemma Main_keeps_debtAboveReturn :
  keeps (Main.debtAboveReturn env stocks debts).
Proof. solve_keeps. Qed.

Lemma Main_keeps_creditCardWhileInvesting :
  keeps (Main.creditCardWhileInvesting stocks crypto debts).
Proof. solve_keeps. Qed.

Lemma Main_keeps_debtToAssetBand :
  keeps (Main.debtToAssetBand realEstate stocks crypto retirement debts).
Proof. solve_keeps. Qed.

Lemma Main_keeps_diversification :
  keeps (Main.diversification stocks crypto retirement).
Proof. solve_keeps. Qed.

Lemma Main_keeps_emergencyBuffer :
  keeps (Main.emergencyBuffer realEstate stocks crypto debts).
Proof. solve_keeps. Qed.

Lemma Main_keeps_yearsToRetirementNote :
  keeps (Main.yearsToRetirementNote retirement age).
Proof. solve_keeps. Qed.

Lemma Main_keeps_ageAppropriateRisk :
  keeps (Main.ageAppropriateRisk stocks crypto retirement age).
Proof. solve_keeps. Qed.

Lemma Main_keeps_highEquityExposure :
  keeps (Main.highEquityExposure realEstate stocks crypto retirement age).
Proof. solve_keeps. Qed.

Lemma Main_keeps_debtFree :
  keeps (Main.debtFree realEstate stocks crypto retirement debts).
Proof. solve_keeps. Qed.

Lemma Main_keeps_retirementShare :
  keeps (Main.retirementShare realEstate stocks crypto retirement debts).
Proof. solve_keeps. Qed.

(** In the browser-side engine every block pushes insights of declared
    category and severity. *)
Lemma Web_valid_goodVsBadDebtOverview :
  pushesOnly validInsight (Web.goodVsBadDebtOverview realEstate debts).
Proof. solve_pushesOnly. Qed.

Lemma Web_valid_highInterestWarning :
  pushesOnly validInsight (Web.highInterestWarning realEstate stocks crypto
    retirement debts).
Proof. solve_pushesOnly. Qed.

Lemma Web_valid_minimumPaymentWarning :
  pushesOnly validInsight (Web.minimumPaymentWarning debts).
Proof. solve_pushesOnly. Qed.

Lemma Web_valid_annualInterestCost :
  pushesOnly validInsight (Web.annualInterestCost debts).
Proof. solve_pushesOnly. Qed.

Lemma Web_valid_debtPayoffInsights :
  pushesOnly validInsight (Web.debtPayoffInsights realEstate stocks crypto
    retirement debts).
Proof. solve_pushesOnly. Qed.

Lemma Web_valid_debtAboveReturn :
  pushesOnly validInsight (Web.debtAboveReturn env stocks debts).
Proof. solve_pushesOnly. Qed.

Lemma Web_valid_creditCardWhileInvesting :
  pushesOnly validInsight (Web.creditCardWhileInvesting stocks crypto debts).
Proof. solve_pushesOnly. Qed.

Lemma Web_valid_debtToAssetBand :
  pushesOnly validInsight (Web.debtToAssetBand realEstate stocks crypto
    retirement debts).
Proof. solve_pushesOnly. Qed.

Lemma Web_valid_diversification :
  pushesOnly validInsight (Web.diversification stocks crypto retirement).
Proof. solve_pushesOnly. Qed.

Lemma Web_valid_emergencyBuffer :
  pushesOnly validInsight (Web.emergencyBuffer realEstate stocks crypto debts).
Proof. solve_pushesOnly. Qed.

Lemma Web_valid_debtFree :
  pushesOnly validInsight (Web.debtFree realEstate stocks crypto retirement
    debts).
Proof. solve_pushesOnly. Qed.

Lemma Web_valid_retirementShare :
  pushesOnly validInsight (Web.retirementShare realEstate stocks crypto
    retirement debts).
Proof. solve_pushesOnly. Qed.

(** The blocks the two engines have in common are the same functions. *)
Lemma Main_goodVsBadDebtOverview_eq :
  Main.goodVsBadDebtOverview realEstate debts
  = Web.goodVsBadDebtOverview realEstate debts.
Proof. reflexivity. Qed.

Lemma Main_debtPayoffInsights_eq :
  Main.debtPayoffInsights realEstate stocks crypto retirement debts
  = Web.debtPayoffInsights realEstate stocks crypto retirement debts.
Proof. reflexivity. Qed.

Lemma Main_debtAboveReturn_eq :
  Main.debtAboveReturn env stocks debts = Web.debtAboveReturn env stocks debts.
Proof. reflexivity. Qed.

Lemma Main_creditCardWhileInvesting_eq :
  Main.creditCardWhileInvesting stocks crypto debts
  = Web.creditCardWhileInvesting stocks crypto debts.
Proof. reflexivity. Qed.

Lemma Main_debtToAssetBand_eq :
  Main.debtToAssetBand realEstate stocks crypto retirement debts
  = Web.debtToAssetBand realEstate stocks crypto retirement debts.
Proof. reflexivity. Qed.

Lemma Main_diversification_eq :
  Main.diversification stocks crypto retirement
  = Web.diversification stocks crypto retirement.
Proof. reflexivity. Qed.

Lemma Main_emergencyBuffer_eq :
  Main.emergencyBuffer realEstate stocks crypto debts
  = Web.emergencyBuffer realEstate stocks crypto debts.
Proof. reflexivity. Qed.

Lemma Main_retirementShare_eq :
  Main.retirementShare realEstate stocks crypto retirement debts
  = Web.retirementShare realEstate stocks crypto retirement debts.
Proof. reflexivity. Qed.

Lemma Main_metrics_eq :
  metrics (Main.generateInsights env realEstate stocks crypto retirement
             debts age)
  = metrics (Web.computeInsights env realEstate stocks crypto retirement
               debts).
Proof.
  unfold Main.generateInsights, Web.computeInsights. cbn [metrics].
  f_equal; reflexivity.
Qed.

Lemma Main_debtPayoff_eq :
  debtPayoff (Main.generateInsights env realEstate stocks crypto retirement
                debts age)
  = debtPayoff (Web.computeInsights env realEstate stocks crypto retirement
                  debts).
Proof.
  unfold Main.generateInsights, Web.computeInsights. cbn [debtPayoff].
  unfold Main.debtPayoff, Web.debtPayoff.
  change (Main.avalanche debts) with (Web.avalanche debts).
  change (Main.snowball debts) with (Web.snowball debts).
  change (Main.totalMin debts) with (Web.totalMin debts).
  reflexivity.
Qed.

Lemma Web_insights_shared :
  Web.insights env realEstate stocks crypto retirement debts
  = Web.retirementShare realEstate stocks crypto retirement debts
      (Web.debtFree realEstate stocks crypto retirement debts
         (sharedBlocks env realEstate stocks crypto retirement debts)).
Proof. reflexivity. Qed.

Lemma Main_insights_shared :
  Main.insights env realEstate stocks crypto retirement debts age
  = Web.retirementShare realEstate stocks crypto retirement debts
      (Main.debtFree realEstate stocks crypto retirement debts
         (Main.highEquityExposure realEstate stocks crypto retirement age
            (Main.ageAppropriateRisk stocks crypto retirement age
               (Main.yearsToRetirementNote retirement age
                  (sharedBlocks env realEstate stocks crypto retirement
                     debts))))).
Proof.
  unfold Main.insights, sharedBlocks.
  now rewrite Main_goodVsBadDebtOverview_eq, Main_debtPayoffInsights_eq,
    Main_debtAboveReturn_eq, Main_creditCardWhileInvesting_eq,
    Main_debtToAssetBand_eq, Main_diversification_eq,
    Main_emergencyBuffer_eq, Main_retirementShare_eq.
Qed.

End Blocks.

End EngineFacts.

Module EngineClaims.
Import EngineFacts.

(** C4 (as amended).  In both engines the good and the bad debts are the
    two halves of a partition of the debts list: a debt is good exactly
    when it is a mortgage, or a student loan at a rate of at most 7; the
    two lists together are a rearrangement of the debts and share no debt.
    The reported [goodDebtTotal] is the sum of the good balances plus the
    sum of all real-estate mortgage balances, [badDebtTotal] the sum of the
    bad balances, and [goodDebtTotal + badDebtTotal] is the sum of all debt
    balances plus all mortgage balances, whenever the additions are exact:
    that is the case when the balances are whole amounts whose total is
    below [2^53].  (With cents the sums are rounded, and the two sides can
    differ in the last bits.) *)
Theorem debt_classification_partition
    (realEstate : list RealEstateHolding.t) (debts : list DebtLiability.t) :
  let good := Web.goodDebtsFromTable debts in
  let bad := Web.badDebts debts in
  let isGood d :=
    DebtLiability.debtType d = mortgage
    \/ (DebtLiability.debtType d = student_loan
        /\ DebtLiability.interestRate d <= 7) in
  let balances := sumBy DebtLiability.currentBalance in
  let mortgages := sumBy RealEstateHolding.mortgageBalance realEstate in
  (forall d, In d good <-> In d debts /\ isGood d) /\
  (forall d, In d bad <-> In d debts /\ ~ isGood d) /\
  Permutation debts (good ++ bad) /\
  (forall d, ~ (In d good /\ In d bad)) /\
  Main.goodDebtsFromTable debts = good /\ Main.badDebts debts = bad /\
  (Forall (fun d => whole (DebtLiability.currentBalance d)) debts ->
   Forall (fun p => whole (RealEstateHolding.mortgageBalance p)) realEstate ->
   balances debts + mortgages < 2 ^ 53 ->
   Totals64.goodDebtTotal realEstate debts == balances good + mortgages /\
   Totals64.badDebtTotal debts == balances bad /\
   Binary64.add (Totals64.goodDebtTotal realEstate debts)
     (Totals64.badDebtTotal debts)
   == balances debts + mortgages /\
   Totals64.totalAllObligations realEstate debts
   == balances debts + mortgages).
Proof.
  intros good bad isGood balances mortgages.
  assert (Hgood : forall d, In d good <-> In d debts /\ isGood d).
  { intros d. unfold good, Web.goodDebtsFromTable.
    rewrite filter_In, isGoodDebt_spec. reflexivity. }
  assert (Hbad : forall d, In d bad <-> In d debts /\ ~ isGood d).
  { intros d. unfold bad, Web.badDebts.
    rewrite filter_In, negb_true_iff, <- not_true_iff_false, isGoodDebt_spec.
    reflexivity. }
  assert (Hsum : balances good + balances bad == balances debts).
  { apply (sumBy_filter_split DebtLiability.currentBalance
             (fun d => Web.isGoodDebt (DebtLiability.debtType d)
                         (DebtLiability.interestRate d)) debts). }
  split; [exact Hgood |]. split; [exact Hbad |].
  split; [apply filter_partition_Permutation |].
  split.
  { intros d [Hg Hb]. apply Hgood in Hg. apply Hbad in Hb. tauto. }
  split; [reflexivity |]. split; [reflexivity |].
  intros Hdebts Hre Hlt.
  assert (Wgood : Forall (fun d => whole (DebtLiability.currentBalance d))
                    good) by now apply Forall_whole_filter.
  assert (Wbad : Forall (fun d => whole (DebtLiability.currentBalance d))
                   bad) by now apply Forall_whole_filter.
  pose proof (sumBy_whole _ _ Hdebts) as Wd.
  pose proof (sumBy_whole _ _ Hre) as Wm.
  pose proof (sumBy_whole _ _ Wgood) as Wg.
  pose proof (sumBy_whole _ _ Wbad) as Wb.
  fold (balances debts) in Wd. fold mortgages in Wm.
  fold (balances good) in Wg. fold (balances bad) in Wb.
  pose proof (whole_nonneg _ Wd). pose proof (whole_nonneg _ Wm).
  pose proof (whole_nonneg _ Wg). pose proof (whole_nonneg _ Wb).
  assert (Em : Totals64.totalMortgageBalances realEstate == mortgages)
    by (apply (sum_whole RealEstateHolding.mortgageBalance);
        [exact Hre | fold mortgages; lra]).
  assert (Ed : Totals64.totalDebtsOnly debts == balances debts)
    by (apply (sum_whole DebtLiability.currentBalance);
        [exact Hdebts | fold (balances debts); lra]).
  assert (Eg : Binary64.sum Totals64.currentBalance good == balances good)
    by (apply (sum_whole DebtLiability.currentBalance);
        [exact Wgood | fold (balances good); lra]).
  assert (Eb : Totals64.badDebtTotal debts == balances bad)
    by (apply (sum_whole DebtLiability.currentBalance);
        [exact Wbad | fold (balances bad); lra]).
  assert (Egood : Totals64.goodDebtTotal realEstate debts
                  == balances good + mortgages).
  { unfold Totals64.goodDebtTotal, Binary64.add. fold good.
    apply Binary64Facts.round_exact; [now rewrite Eg, Em |].
    apply round_whole_amount; [now apply whole_plus | lra]. }
  split; [exact Egood |]. split; [exact Eb |]. split.
  - unfold Binary64.add.
    apply Binary64Facts.round_exact; [rewrite Egood, Eb; lra |].
    apply round_whole_amount; [exact (whole_plus _ _ Wd Wm) | lra].
  - unfold Totals64.totalAllObligations, Binary64.add.
    apply Binary64Facts.round_exact; [now rewrite Ed, Em |].
    apply round_whole_amount; [exact (whole_plus _ _ Wd Wm) | lra].
Qed.

(** A card of 1000, a student loan of 2500 at 5 percent, a car loan of
    1200 and a mortgage of 300000. *)
Lemma debt_classification_partition_witness :
  let realEstate := [RealEstateHolding.mk 500000 300000 (Some 2000)] in
  let debts :=
    [DebtLiability.mk "card" credit_card 1000 20 50 None;
     DebtLiability.mk "college" student_loan 2500 5 90 None;
     DebtLiability.mk "car" auto_loan 1200 6 300 None] in
  Totals64.goodDebtTotal realEstate debts == 302500 /\
  Totals64.badDebtTotal debts == 2200 /\
  Binary64.add (Totals64.goodDebtTotal realEstate debts)
    (Totals64.badDebtTotal debts) == 304700 /\
  Totals64.totalAllObligations realEstate debts == 304700.
Proof.
  intros realEstate debts.
  destruct (debt_classification_partition realEstate debts)
    as (_ & _ & _ & _ & _ & _ & H).
  destruct H as (H1 & H2 & H3 & H4).
  - repeat constructor;
      [exists 1000%Z | exists 2500%Z | exists 1200%Z];
      (split; [lia | reflexivity]).
  - repeat constructor. exists 300000%Z. split; [lia | reflexivity].
  - reflexivity.
  - split; [eapply Qeq_trans; [exact H1 | reflexivity] |].
    split; [eapply Qeq_trans; [exact H2 | reflexivity] |].
    split; [eapply Qeq_trans; [exact H3 | reflexivity] |].
    eapply Qeq_trans; [exact H4 | reflexivity].
Defined.

(** C4, as stated for every snapshot, fails with cents.  A card of
    1000.10, a student loan of 2500.20 at 5 percent and a card of 1200.55:
    the code reports a bad total and a good total whose machine sum is
    above the total it reports for all debts, and neither that sum nor the
    exact sum of the two totals is the sum of the three balances, be they
    taken as typed or as the machine holds them. *)
Lemma debt_classification_partition_counterexample :
  let debts :=
    [DebtLiability.mk "card" credit_card (10001 # 10) 20 50 None;
     DebtLiability.mk "college" student_loan (25002 # 10) 5 90 None;
     DebtLiability.mk "store" credit_card (120055 # 100) 24 40 None] in
  let good := Totals64.goodDebtTotal [] debts in
  let bad := Totals64.badDebtTotal debts in
  Totals64.totalAllObligations [] debts < Binary64.add good bad /\
  ~ Binary64.add good bad == sumBy DebtLiability.currentBalance debts /\
  ~ good + bad == sumBy DebtLiability.currentBalance debts /\
  ~ Binary64.add good bad == sumBy Totals64.currentBalance debts /\
  ~ good + bad == sumBy Totals64.currentBalance debts.
Proof.
  split; [reflexivity |]. repeat split; vm_compute; discriminate.
Qed.

(** *** A snapshot without debts and without amounts *)

Ltac split_ltb :=
  repeat match goal with
  | |- context [ltb ?a ?b] => destruct (ltb_spec a b); try lra
  end.

Section NothingToReport.

Variable env : Env.
Variable realEstate : list RealEstateHolding.t.
Variable stocks : list StockHolding.t.
Variable crypto : list CryptoHolding.t.
Variable retirement : list RetirementAccount.t.
Variable age : option Z.

Hypothesis no_equity : Web.totalRealEstateEquity realEstate == 0.
Hypothesis no_mortgage : Web.totalMortgageBalances realEstate == 0.
Hypothesis no_mortgage_payment : Web.monthlyMortgagePayments realEstate == 0.
Hypothesis no_stocks : Web.totalStocks stocks == 0.
Hypothesis no_crypto : Web.totalCrypto crypto == 0.
Hypothesis no_retirement : Web.totalRetirement retirement == 0.

Lemma Web_metrics_zero :
  allZero
    (metrics (Web.computeInsights env realEstate stocks crypto retirement [])).
Proof.
  unfold allZero, Web.computeInsights.
  cbn [metrics totalAssets totalDebts netWorth debtToAssetRatio
       weightedAvgDebtRate monthlyDebtPayments highInterestDebtTotal
       goodDebtTotal badDebtTotal goodDebtMonthly badDebtMonthly].
  unfold Web.debtToAssetRatio, Web.weightedAvgDebtRate,
    Web.totalAllDebtBalance, Web.totalAllObligations, Web.netWorth,
    Web.totalDebts, Web.totalAssets, Web.monthlyDebtPayments,
    Web.highInterestDebtTotal, Web.goodDebtTotal, Web.badDebtTotal,
    Web.goodDebtMonthly, Web.badDebtMonthly, Web.totalDebtsOnly,
    Web.highInterestDebts, Web.goodDebtsFromTable, Web.badDebts.
  cbn [List.filter]. rewrite !sumBy_nil.
  repeat split; split_ltb; lra.
Qed.

Lemma sharedBlocks_empty :
  sharedBlocks env realEstate stocks crypto retirement [] = [].
Proof.
  unfold sharedBlocks.
  assert (H1 : Web.goodVsBadDebtOverview realEstate [] [] = []).
  { unfold Web.goodVsBadDebtOverview, Web.totalAllObligations,
      Web.totalDebtsOnly. rewrite sumBy_nil.
    destruct (ltb_spec 0 (0 + Web.totalMortgageBalances realEstate));
      [lra | reflexivity]. }
  rewrite H1.
  change (Web.debtPayoffInsights realEstate stocks crypto retirement [] [])
    with (@nil Insight).
  change (Web.debtAboveReturn env stocks [] []) with (@nil Insight).
  change (Web.creditCardWhileInvesting stocks crypto [] [])
    with (@nil Insight).
  assert (H2 : Web.debtToAssetBand realEstate stocks crypto retirement [] []
               = []).
  { unfold Web.debtToAssetBand, Web.debtToAssetRatio, Web.totalAssets.
    split_ltb; reflexivity. }
  rewrite H2.
  assert (H3 : Web.diversification stocks crypto retirement [] = []).
  { unfold Web.diversification, Web.totalInvestable.
    destruct (ltb_spec 0 (Web.totalStocks stocks + Web.totalCrypto crypto
                          + Web.totalRetirement retirement));
      [lra | reflexivity]. }
  rewrite H3.
  unfold Web.emergencyBuffer. now rewrite andb_false_r.
Qed.

Lemma Web_debtFree_empty :
  Web.debtFree realEstate stocks crypto retirement [] [] = [].
Proof.
  unfold Web.debtFree, Web.netWorth, Web.totalAssets, Web.totalDebts,
    Web.totalDebtsOnly. rewrite sumBy_nil.
  split_ltb; reflexivity.
Qed.

Lemma Main_debtFree_empty :
  Main.debtFree realEstate stocks crypto retirement [] [] = [].
Proof.
  unfold Main.debtFree, Main.netWorth, Main.totalAssets, Main.totalDebts,
    Main.totalDebtsOnly. rewrite sumBy_nil.
  change (Main.totalRealEstateEquity realEstate)
    with (Web.totalRealEstateEquity realEstate).
  change (Main.totalStocks stocks) with (Web.totalStocks stocks).
  change (Main.totalCrypto crypto) with (Web.totalCrypto crypto).
  change (Main.totalRetirement retirement)
    with (Web.totalRetirement retirement).
  split_ltb; reflexivity.
Qed.

Lemma retirementShare_empty :
  Web.retirementShare realEstate stocks crypto retirement [] [] = [].
Proof.
  unfold Web.retirementShare.
  destruct (ltb_spec 0 (Web.totalRetirement retirement)); [lra |].
  now rewrite andb_false_r.
Qed.

Lemma ageBlocks_empty :
  Main.highEquityExposure realEstate stocks crypto retirement age
    (Main.ageAppropriateRisk stocks crypto retirement age
       (Main.yearsToRetirementNote retirement age [])) = [].
Proof.
  unfold Main.highEquityExposure, Main.ageAppropriateRisk,
    Main.yearsToRetirementNote, Main.totalAssets.
  change (Main.totalRealEstateEquity realEstate)
    with (Web.totalRealEstateEquity realEstate).
  change (Main.totalStocks stocks) with (Web.totalStocks stocks).
  change (Main.totalCrypto crypto) with (Web.totalCrypto crypto).
  change (Main.totalRetirement retirement)
    with (Web.totalRetirement retirement).
  destruct (Main.truthyAge age) as [a |]; [| reflexivity].
  destruct (ltb_spec 0 (Web.totalRetirement retirement)); [lra |].
  destruct (ltb_spec 0 (Web.totalCrypto crypto)); [lra |].
  rewrite andb_false_r. cbn [andb].
  destruct (50 <=? a)%Z; [| reflexivity]. cbv zeta.
  split_ltb; reflexivity.
Qed.

Lemma Web_insights_empty :
  insights (Web.computeInsights env realEstate stocks crypto retirement [])
  = [].
Proof.
  unfold Web.computeInsights. cbn [insights].
  now rewrite Web_insights_shared, sharedBlocks_empty, Web_debtFree_empty,
    retirementShare_empty.
Qed.

Lemma Main_insights_empty :
  insights
    (Main.generateInsights env realEstate stocks crypto retirement [] age)
  = [].
Proof.
  unfold Main.generateInsights. cbn [insights].
  now rewrite Main_insights_shared, sharedBlocks_empty, ageBlocks_empty,
    Main_debtFree_empty, retirementShare_empty.
Qed.

End NothingToReport.

(** C5 (as amended).  For every snapshot without debts in which the
    stock, crypto and retirement totals, the total real-estate equity, the
    total mortgage balance and the total monthly mortgage payment are all
    zero (the empty snapshot is one), both engines report an all-zero
    metrics block, an empty insights list and no payoff plans. *)
Theorem nothing_to_report
    (env : Env) (realEstate : list RealEstateHolding.t)
    (stocks : list StockHolding.t) (crypto : list CryptoHolding.t)
    (retirement : list RetirementAccount.t) (age : option Z) :
  Web.totalRealEstateEquity realEstate == 0 ->
  Web.totalMortgageBalances realEstate == 0 ->
  Web.monthlyMortgagePayments realEstate == 0 ->
  Web.totalStocks stocks == 0 ->
  Web.totalCrypto crypto == 0 ->
  Web.totalRetirement retirement == 0 ->
  let web := Web.computeInsights env realEstate stocks crypto retirement [] in
  let main :=
    Main.generateInsights env realEstate stocks crypto retirement [] age in
  (allZero (metrics web) /\ insights web = [] /\ debtPayoff web = None) /\
  (allZero (metrics main) /\ insights main = [] /\ debtPayoff main = None).
Proof.
  intros H1 H2 H3 H4 H5 H6 web main. split; split.
  - now apply Web_metrics_zero.
  - split; [now apply Web_insights_empty | reflexivity].
  - change (metrics main) with (metrics web). now apply Web_metrics_zero.
  - split; [now apply Main_insights_empty | reflexivity].
Qed.

(** The entirely empty snapshot. *)
Lemma nothing_to_report_witness :
  let web := Web.computeInsights sampleEnv [] [] [] [] [] in
  let main := Main.generateInsights sampleEnv [] [] [] [] [] (Some 40%Z) in
  (allZero (metrics web) /\ insights web = [] /\ debtPayoff web = None) /\
  (allZero (metrics main) /\ insights main = [] /\ debtPayoff main = None).
Proof.
  apply (nothing_to_report sampleEnv [] [] [] [] (Some 40%Z));
    reflexivity.
Defined.

(** C5, as stated for every snapshot without debts whose total assets are
    zero, fails for a property mortgaged for its whole value: its equity,
    hence the total assets, is zero, yet the mortgage is reported as good
    debt, in the metrics and in an insight. *)
Lemma nothing_to_report_counterexample :
  let report :=
    Web.computeInsights sampleEnv [RealEstateHolding.mk 100 100 None]
      [] [] [] [] in
  totalAssets (metrics report) == 0 /\
  insights report
  = [mkInsight 1 "debt_payoff" "positive" (OnlyGoodDebt 100 0)] /\
  ~ goodDebtTotal (metrics report) == 0.
Proof.
  split; [reflexivity |]. split; [reflexivity |].
  vm_compute. discriminate.
Qed.

(** *** The warnings on debts *)

Lemma nonempty_length {A : Type} (l : list A) :
  l <> [] -> (0 <? length l)%nat = true.
Proof. destruct l; [congruence | reflexivity]. Qed.

Lemma paysMinimumOnly_spec (d : DebtLiability.t) :
  paysMinimumOnly d = true
  <-> exists p, DebtLiability.monthlyPayment d = Some p
                /\ ~ Binary64.read p == 0
                /\ Binary64.read p
                   <= Binary64.mul
                        (Binary64.read (DebtLiability.minimumPayment d))
                        (Binary64.read (105 # 100)).
Proof.
  unfold paysMinimumOnly.
  set (bound := Binary64.mul (Binary64.read (DebtLiability.minimumPayment d))
                  (Binary64.read (105 # 100))).
  destruct (DebtLiability.monthlyPayment d) as [p |]; split.
  - intros H. apply andb_prop in H as [H1 H2]. exists p.
    split; [reflexivity |]. split.
    + apply Qeq_bool_neq. now apply negb_true_iff.
    + destruct (leb_spec (Binary64.read p) bound);
        [assumption | discriminate].
  - intros (q & [= <-] & Hq & Hle). apply andb_true_intro. split.
    + apply negb_true_iff.
      destruct (Qeq_bool (Binary64.read p) 0) eqn:E; [| reflexivity].
      apply Qeq_bool_iff in E. contradiction.
    + destruct (leb_spec (Binary64.read p) bound); [reflexivity | lra].
  - discriminate.
  - intros (q & [=] & _).
Qed.

(** C6 (as amended).  For every snapshot with a non-empty debts list, if
    at least one debt has a recorded, non-zero monthly payment that is at
    most the product of its minimum payment and 1.05, as the machine
    computes that product (the binary64 product of the minimum payment and
    the binary64 number nearest to 1.05, the payment and the minimum
    payment being the binary64 numbers the machine holds for them), both
    engines emit a warning-severity [cash_flow] insight about paying only
    minimums, and it names exactly the debts meeting that condition, in the
    order of the list.  (A debt whose [monthlyPayment] is absent or 0 is
    not among them.) *)
Theorem minimum_payment_warning
    (env : Env) (realEstate : list RealEstateHolding.t)
    (stocks : list StockHolding.t) (crypto : list CryptoHolding.t)
    (retirement : list RetirementAccount.t) (debts : list DebtLiability.t)
    (age : option Z) :
  debts <> [] ->
  Exists (fun d => paysMinimumOnly d = true) debts ->
  let flagged := List.filter paysMinimumOnly debts in
  let warning n :=
    mkInsight n "cash_flow" "warning"
      (MinimumsOnly (map DebtLiability.name flagged)) in
  (forall d, In d flagged
     <-> In d debts
         /\ exists p, DebtLiability.monthlyPayment d = Some p
                      /\ ~ Binary64.read p == 0
                      /\ Binary64.read p
                         <= Binary64.mul
                              (Binary64.read (DebtLiability.minimumPayment d))
                              (Binary64.read (105 # 100)))
  /\ (exists n,
        In (warning n)
          (insights (Web.computeInsights env realEstate stocks crypto
                       retirement debts)))
  /\ (exists n,
        In (warning n)
          (insights (Main.generateInsights env realEstate stocks crypto
                       retirement debts age))).
Proof.
  intros Hne Hex flagged warning.
  pose proof (nonempty_length debts Hne) as Hlen.
  pose proof (filter_nonempty paysMinimumOnly debts Hex) as Hflag.
  split.
  { intros d. unfold flagged. rewrite filter_In, paysMinimumOnly_spec.
    reflexivity. }
  set (before := Web.highInterestWarning realEstate stocks crypto retirement
                   debts (Web.goodVsBadDebtOverview realEstate debts [])).
  assert (Hin : In (warning (S (length before)))
                  (sharedBlocks env realEstate stocks crypto retirement
                     debts)).
  { unfold sharedBlocks.
    apply Web_keeps_emergencyBuffer, Web_keeps_diversification,
      Web_keeps_debtToAssetBand, Web_keeps_creditCardWhileInvesting,
      Web_keeps_debtAboveReturn.
    unfold Web.debtPayoffInsights. rewrite Hlen.
    apply Web_keeps_annualInterestCost.
    unfold Web.minimumPaymentWarning, Web.minOnlyDebts. rewrite Hflag.
    apply In_push_new. }
  split; exists (S (length before)).
  - unfold Web.computeInsights. cbn [insights].
    rewrite Web_insights_shared.
    now apply Web_keeps_retirementShare, Web_keeps_debtFree.
  - unfold Main.generateInsights. cbn [insights].
    rewrite Main_insights_shared.
    now apply Web_keeps_retirementShare, Main_keeps_debtFree,
      Main_keeps_highEquityExposure, Main_keeps_ageAppropriateRisk,
      Main_keeps_yearsToRetirementNote.
Qed.

Lemma minimum_payment_warning_witness :
  let debts :=
    [DebtLiability.mk "card" credit_card 1000 20 50 (Some 50);
     DebtLiability.mk "car" auto_loan 9000 6 300 (Some 400);
     DebtLiability.mk "loan" personal_loan 500 9 25 None] in
  let warning n := mkInsight n "cash_flow" "warning" (MinimumsOnly ["card"]) in
  (exists n,
     In (warning n)
       (insights (Web.computeInsights sampleEnv [] [] [] [] debts)))
  /\ (exists n,
        In (warning n)
          (insights (Main.generateInsights sampleEnv [] [] [] [] debts
                       None))).
Proof.
  intros debts.
  apply (minimum_payment_warning sampleEnv [] [] [] [] debts None).
  - discriminate.
  - left. reflexivity.
Defined.

(** C6, as stated, fails in three ways.  The payment does not default to
    the minimum payment in this rule: a debt whose [monthlyPayment] is
    absent pays its minimum payment, within 1.05 times of it, and no
    [cash_flow] insight is emitted (the stocks held cover the emergency
    buffer).  And the bound is the machine's product.  With a minimum
    payment of 20.40, a payment of 21.42 is exactly 1.05 times the minimum
    payment, yet the machine's product is 21.419999999999998 and no
    [cash_flow] insight is emitted.  With a minimum payment of 1, a payment
    of the binary64 number nearest to 1.05, which is above 1.05, is more
    than 1.05 times the minimum payment, and the debt is flagged. *)
Lemma minimum_payment_warning_counterexample :
  let stocks := [StockHolding.mk 10 100 None 0] in
  let cashFlow debts :=
    existsb (fun i => String.eqb (category i) "cash_flow")
      (insights (Web.computeInsights sampleEnv [] stocks [] [] debts)) in
  let d := DebtLiability.mk "loan" personal_loan 1000 20 50 None in
  let d1 :=
    DebtLiability.mk "card" credit_card 1000 20 (204 # 10)
      (Some (2142 # 100)) in
  let p := Binary64.read (105 # 100) in
  let d2 := DebtLiability.mk "card" credit_card 100 20 1 (Some p) in
  (paymentOf d <= DebtLiability.minimumPayment d * (105 # 100) /\
   cashFlow [d] = false) /\
  ((2142 # 100) <= DebtLiability.minimumPayment d1 * (105 # 100) /\
   cashFlow [d1] = false) /\
  (DebtLiability.minimumPayment d2 * (105 # 100) < p /\
   cashFlow [d2] = true).
Proof.
  split; [| split];
    (split; first [discriminate | reflexivity | vm_compute; reflexivity]).
Qed.



#[local] Hint Unfold
  Web.goodVsBadDebtOverview Web.highInterestWarning Web.minimumPaymentWarning
  Web.annualInterestCost Web.debtPayoffInsights Web.creditCardWhileInvesting
  Web.debtToAssetBand Web.diversification Web.emergencyBuffer Web.debtFree
  Web.retirementShare Main.yearsToRetirementNote Main.ageAppropriateRisk
  Main.highEquityExposure Main.debtFree : engine_blocks.







(** *** Categories, and the two engines side by side *)

(** X15.  The browser-side engine only emits declared categories and
    severities. *)
Lemma Web_insights_valid
    (env : Env) (realEstate : list RealEstateHolding.t)
    (stocks : list StockHolding.t) (crypto : list CryptoHolding.t)
    (retirement : list RetirementAccount.t) (debts : list DebtLiability.t) :
  Forall validInsight
    (insights (Web.computeInsights env realEstate stocks crypto retirement
                 debts)).
Proof.
  unfold Web.computeInsights. cbn [insights]. unfold Web.insights.
  apply Web_valid_retirementShare, Web_valid_debtFree,
    Web_valid_emergencyBuffer, Web_valid_diversification,
    Web_valid_debtToAssetBand, Web_valid_creditCardWhileInvesting,
    Web_valid_debtAboveReturn, Web_valid_debtPayoffInsights,
    Web_valid_goodVsBadDebtOverview.
  constructor.
Qed.

Lemma sharedBlocks_valid
    (env : Env) (realEstate : list RealEstateHolding.t)
    (stocks : list StockHolding.t) (crypto : list CryptoHolding.t)
    (retirement : list RetirementAccount.t) (debts : list DebtLiability.t) :
  Forall validInsight
    (sharedBlocks env realEstate stocks crypto retirement debts).
Proof.
  unfold sharedBlocks.
  apply Web_valid_emergencyBuffer, Web_valid_diversification,
    Web_valid_debtToAssetBand, Web_valid_creditCardWhileInvesting,
    Web_valid_debtAboveReturn, Web_valid_debtPayoffInsights,
    Web_valid_goodVsBadDebtOverview.
  constructor.
Qed.

(** Without debts and with a positive net worth, the main-process engine
    emits the debt-free insight under the category ["positive"]. *)
Lemma Main_debtFree_category
    (env : Env) (realEstate : list RealEstateHolding.t)
    (stocks : list StockHolding.t) (crypto : list CryptoHolding.t)
    (retirement : list RetirementAccount.t) (age : option Z) :
  0 < Main.netWorth realEstate stocks crypto retirement [] ->
  exists n,
    In (mkInsight n "positive" "positive"
          (DebtFree (Main.netWorth realEstate stocks crypto retirement [])))
      (insights (Main.generateInsights env realEstate stocks crypto
                   retirement [] age)).
Proof.
  intros Hpos. unfold Main.generateInsights. cbn [insights].
  unfold Main.insights.
  eexists. apply Main_keeps_retirementShare.
  unfold Main.debtFree at 1.
  destruct (ltb_spec 0 (Main.netWorth realEstate stocks crypto retirement []));
    [| lra].
  cbn [length Nat.eqb andb]. apply In_push_new.
Qed.

#[local] Hint Unfold Web.debtAboveReturn : engine_blocks.

Ltac pushes_declared :=
  intros ins Hins; autounfold with engine_blocks; cbv zeta;
  case_conditions;
  repeat (apply Forall_push;
          [| intros n;
             first [left; split; reflexivity
                   | right; repeat split; reflexivity]]);
  exact Hins.

Ltac declared_block :=
  match goal with
  | |- Forall ?P (?block ?ins) =>
      let H := fresh in
      assert (H : pushesOnly P block) by pushes_declared;
      apply (H ins); clear H
  end.

(** X16.  In the main-process engine the debt-free insight is the only
    source of an undeclared category: whatever the tables and the age,
    every insight of a report either has a declared category and a declared
    severity, or is the debt-free insight, with the category ["positive"]
    and a declared severity. *)
Lemma Main_insights_valid_but_debtFree
    (env : Env) (realEstate : list RealEstateHolding.t)
    (stocks : list StockHolding.t) (crypto : list CryptoHolding.t)
    (retirement : list RetirementAccount.t) (debts : list DebtLiability.t)
    (age : option Z) :
  Forall (fun i =>
            validInsight i
            \/ (isDebtFree (text i) = true /\ category i = "positive"
                /\ inList (severity i) severities = true))
    (insights (Main.generateInsights env realEstate stocks crypto retirement
                 debts age)).
Proof.
  unfold Main.generateInsights. cbn [insights]. rewrite Main_insights_shared.
  do 5 declared_block. unfold sharedBlocks. do 7 declared_block.
  constructor.
Qed.

(** C8, at an input where the code departs from it: with a retirement
    account of 1000 and no debts, the main-process engine emits the
    debt-free insight with the category ["positive"], which is not one of
    the five declared categories (the browser-side engine emits it as
    ["opportunity"], see [Web_insights_valid]). *)
Theorem debt_free_category_undeclared :
  let report :=
    Main.generateInsights sampleEnv [] [] [] [RetirementAccount.mk 1000] []
      None in
  map (fun i => (category i, severity i)) (insights report)
  = [("positive", "positive"); ("portfolio_health", "positive")] /\
  inList "positive" categories = false /\
  ~ Forall validInsight (insights report).
Proof.
  split; [reflexivity |]. split; [reflexivity |].
  intros H. cbv zeta in H.
  change (insights (Main.generateInsights sampleEnv [] [] []
                      [RetirementAccount.mk 1000] [] None))
    with [mkInsight 1 "positive" "positive" (DebtFree 1000);
          mkInsight 2 "portfolio_health" "positive"
            (RetirementShare (1000 / 1000 * 100) 1000)] in H.
  inversion H as [| i l [Hcat _] _]. discriminate.
Qed.

Lemma relabel_valid (i : Insight) : validInsight i -> relabel i = i.
Proof.
  intros [Hcat _]. unfold relabel.
  destruct (String.eqb_spec (category i) "positive") as [E | _];
    [| reflexivity].
  rewrite E in Hcat. discriminate.
Qed.

Lemma map_relabel_valid (l : list Insight) :
  Forall validInsight l -> map relabel l = l.
Proof.
  induction 1 as [| i l Hi _ IH]; simpl; [reflexivity |].
  now rewrite relabel_valid, IH.
Qed.

Lemma map_relabel_push (c s : string) (t : InsightText) (l : list Insight) :
  map relabel (push c s t l)
  = push (if String.eqb c "positive" then "opportunity" else c) s t
      (map relabel l).
Proof.
  unfold push. rewrite map_app, length_map. simpl. unfold relabel at 2.
  simpl. now destruct (String.eqb c "positive").
Qed.

(** X17.  Apart from the category of the debt-free insight, the two engines
    agree when no age is supplied: same metrics, same payoff plans, and the
    same insights in the same order once ["positive"] is read as
    ["opportunity"]; the insights lists are equal whenever the debt-free
    insight is not emitted. *)
Lemma engines_agree_up_to_category
    (env : Env) (realEstate : list RealEstateHolding.t)
    (stocks : list StockHolding.t) (crypto : list CryptoHolding.t)
    (retirement : list RetirementAccount.t) (debts : list DebtLiability.t) :
  let web :=
    Web.computeInsights env realEstate stocks crypto retirement debts in
  let main :=
    Main.generateInsights env realEstate stocks crypto retirement debts
      None in
  metrics web = metrics main /\
  debtPayoff web = debtPayoff main /\
  insights web = map relabel (insights main) /\
  (debts <> []
   \/ Web.netWorth realEstate stocks crypto retirement debts <= 0 ->
   insights web = insights main).
Proof.
  intros web main.
  split; [symmetry; apply Main_metrics_eq |].
  split; [symmetry; apply Main_debtPayoff_eq |].
  pose proof (sharedBlocks_valid env realEstate stocks crypto retirement
                debts) as Hvalid.
  assert (Hweb : insights web
                 = Web.retirementShare realEstate stocks crypto retirement
                     debts
                     (Web.debtFree realEstate stocks crypto retirement debts
                        (sharedBlocks env realEstate stocks crypto
                           retirement debts)))
    by apply Web_insights_shared.
  assert (Hmain : insights main
                  = Web.retirementShare realEstate stocks crypto retirement
                      debts
                      (Main.debtFree realEstate stocks crypto retirement
                         debts
                         (sharedBlocks env realEstate stocks crypto
                            retirement debts))).
  { unfold main, Main.generateInsights. cbn [insights].
    now rewrite Main_insights_shared. }
  rewrite Hweb, Hmain. clear Hweb Hmain.
  revert Hvalid.
  generalize (sharedBlocks env realEstate stocks crypto retirement debts).
  intros shared Hvalid.
  unfold Web.debtFree, Main.debtFree.
  change (Main.netWorth realEstate stocks crypto retirement debts)
    with (Web.netWorth realEstate stocks crypto retirement debts).
  split.
  - unfold Web.retirementShare. cbv zeta.
    case_conditions;
      rewrite ?map_relabel_push; cbn [String.eqb Ascii.eqb Bool.eqb];
      now rewrite map_relabel_valid.
  - intros Hno.
    destruct (ltb_spec 0 (Web.netWorth realEstate stocks crypto retirement
                            debts)) as [Hpos | Hnp];
      [| reflexivity].
    destruct debts as [| d debts']; [| reflexivity].
    destruct Hno as [Hne | Hle]; [congruence | lra].
Qed.

(** C9, at an input where the code departs from it: with a retirement
    account of 1000, no debts and no age, the two engines report the same
    metrics and payoff plans but not the same insights: the debt-free
    insight has the category ["opportunity"] in the browser-side engine and
    ["positive"] in the main-process one. *)
Theorem engines_disagree_on_debt_free :
  let web :=
    Web.computeInsights sampleEnv [] [] [] [RetirementAccount.mk 1000] [] in
  let main :=
    Main.generateInsights sampleEnv [] [] [] [RetirementAccount.mk 1000] []
      None in
  metrics web = metrics main /\
  debtPayoff web = debtPayoff main /\
  map category (insights web) = ["opportunity"; "portfolio_health"] /\
  map category (insights main) = ["positive"; "portfolio_health"] /\
  insights web <> insights main.
Proof.
  split; [reflexivity |]. split; [reflexivity |].
  split; [reflexivity |]. split; [reflexivity |].
  intros H. apply (f_equal (map category)) in H.
  vm_compute in H. discriminate.
Qed.

End EngineClaims.

(** * Further properties of the payoff simulator *)

Module PayoffExtras.
Import Payoff PayoffFacts.

(** ** The answer is the first month at which the debts count as paid *)

Lemma payoffLoop_first (rates mins : list Q) (B : Q) (fuel months : nat)
    (bs : list Q) (k : nat) :
  (months + k < payoffLoop rates mins B fuel months bs)%nat ->
  EPSILON < totalRemaining (Nat.iter k (monthStep rates mins B) bs).
Proof.
  revert months bs k. induction fuel as [| fuel IH]; intros months bs k; simpl.
  - lia.
  - destruct (leb_spec (totalRemaining bs) EPSILON) as [Hle | Hlt]; [lia |].
    intros Hk. destruct k as [| k]; [exact Hlt |].
    rewrite Nat.iter_succ_r. apply (IH (S months)). lia.
Qed.

(** X1.  With debts and a positive budget, the total owed is above the
    threshold at the start of every month before the answer, and within it
    at the answer unless the answer is the cap. *)
Theorem estimatePayoffMonths_first_paid_month
    (debts : list DebtItem.t) (B : Q) :
  debts <> [] -> 0 < B ->
  (forall k, (k < estimatePayoffMonths debts B)%nat ->
     EPSILON < totalRemaining (balancesAfter debts B k))
  /\ ((estimatePayoffMonths debts B < 600)%nat ->
      totalRemaining (balancesAfter debts B (estimatePayoffMonths debts B))
      <= EPSILON).
Proof.
  intros Hne HB. unfold estimatePayoffMonths, balancesAfter.
  destruct debts as [| d debts]; [congruence |].
  destruct (leb_spec B 0); [lra |]. cbn [length Nat.eqb orb].
  split.
  - intros k Hk. apply (payoffLoop_first _ _ B MAX_MONTHS 0). exact Hk.
  - intros Hlt.
    pose proof (payoffLoop_paid (monthlyRates (d :: debts))
                  (map DebtItem.minimumPayment (d :: debts)) B MAX_MONTHS 0
                  (map DebtItem.balance (d :: debts))) as Hpaid.
    rewrite Nat.sub_0_r in Hpaid. apply Hpaid. exact Hlt.
Qed.

Lemma estimatePayoffMonths_first_paid_month_witness :
  let debts := [DebtItem.mk "loan" 100 0 10] in
  (forall k, (k < estimatePayoffMonths debts 20)%nat ->
     EPSILON < totalRemaining (balancesAfter debts 20 k))
  /\ ((estimatePayoffMonths debts 20 < 600)%nat ->
      totalRemaining (balancesAfter debts 20 (estimatePayoffMonths debts 20))
      <= EPSILON).
Proof.
  intros debts.
  apply (estimatePayoffMonths_first_paid_month debts 20).
  - discriminate.
  - reflexivity.
Defined.

(** ** Lower balances never take longer *)

(** X2.  With non-negative balances, rates and minimum payments, raising the
    balances of the debts, all else equal (rates, minimum payments, order
    and budget), never lowers the estimate. *)
Theorem estimatePayoffMonths_balance_monotone
    (debts debts' : list DebtItem.t) (B : Q) :
  Forall wellFormed debts -> Forall wellFormed debts' ->
  Forall2 (fun d d' => DebtItem.rate d = DebtItem.rate d'
                       /\ DebtItem.minimumPayment d
                          = DebtItem.minimumPayment d'
                       /\ DebtItem.balance d <= DebtItem.balance d')
    debts debts' ->
  (estimatePayoffMonths debts B <= estimatePayoffMonths debts' B)%nat.
Proof.
  intros Hwf Hwf' Hrel.
  assert (Hrates : monthlyRates debts = monthlyRates debts').
  { unfold monthlyRates. clear Hwf Hwf'.
    induction Hrel as [| d d' l l' (Hr & _ & _) _ IH];
      simpl; [reflexivity |].
    now rewrite Hr, IH. }
  assert (Hmins : map DebtItem.minimumPayment debts
                  = map DebtItem.minimumPayment debts').
  { clear Hwf Hwf' Hrates.
    induction Hrel as [| d d' l l' (_ & Hm & _) _ IH]; simpl; [reflexivity |].
    now rewrite Hm, IH. }
  assert (Hbal : pointwise_le (map DebtItem.balance debts)
                   (map DebtItem.balance debts')).
  { unfold pointwise_le. clear Hrates Hmins Hwf Hwf'.
    induction Hrel as [| d d' l l' (_ & _ & Hb) _ IH]; simpl;
      constructor; assumption. }
  unfold estimatePayoffMonths.
  rewrite <- (Forall2_length _ _ _ Hrel), <- Hrates, <- Hmins.
  destruct ((length debts =? 0)%nat || leb B 0) eqn:E; [lia |].
  apply orb_false_elim in E as [_ E].
  destruct (leb_spec B 0); [discriminate |].
  apply payoffLoop_le.
  - now apply PayoffClaims.wellFormed_rates.
  - now apply PayoffClaims.wellFormed_mins.
  - lra.
  - lra.
  - now apply PayoffClaims.wellFormed_balances.
  - now apply PayoffClaims.wellFormed_balances.
  - exact Hbal.
Qed.

Lemma estimatePayoffMonths_balance_monotone_witness :
  (estimatePayoffMonths [DebtItem.mk "A" 400 0 25; DebtItem.mk "B" 900 0 50] 75
   <= estimatePayoffMonths
        [DebtItem.mk "A" 500 0 25; DebtItem.mk "B" 900 0 50] 75)%nat.
Proof.
  apply estimatePayoffMonths_balance_monotone.
  - repeat constructor; simpl; discriminate.
  - repeat constructor; simpl; discriminate.
  - repeat constructor; simpl; discriminate.
Defined.

(** ** A debt that is paid is left alone *)

Section Untouched.

Variables (rates mins : list Q) (i : nat).

Lemma accrueAt_untouched (bs : list Q) (k : nat) :
  getQ bs i <= 0 -> getQ (accrueAt rates bs k) i = getQ bs i.
Proof.
  intros Hi. unfold accrueAt.
  destruct (ltb_spec 0 (getQ bs k)) as [Hpos | _]; [| reflexivity].
  apply getQ_setQ_ne. intros ->. lra.
Qed.

Lemma payMinAt_untouched (st : State) (k : nat) :
  getQ (fst st) i <= 0 -> getQ (fst (payMinAt mins st k)) i = getQ (fst st) i.
Proof.
  destruct st as [bs budget]. cbn [fst]. intros Hi. unfold payMinAt.
  destruct (leb_spec (getQ bs k) 0) as [_ | Hpos]; [reflexivity |].
  cbn [fst]. apply getQ_setQ_ne. intros ->. lra.
Qed.

Lemma payExtraLoop_untouched (idxs : list nat) (st : State) :
  getQ (fst st) i <= 0 ->
  getQ (fst (payExtraLoop idxs st)) i = getQ (fst st) i.
Proof.
  destruct st as [bs budget]. cbn [fst]. intros Hi.
  induction idxs as [| k idxs IH]; simpl; [reflexivity |].
  destruct (leb_spec (getQ bs k) 0) as [_ | Hpos]; [exact IH |].
  cbn [fst]. apply getQ_setQ_ne. intros ->. lra.
Qed.

(** X3.  A debt whose balance is 0 (or below) goes through a month of the
    simulation unchanged: it accrues no interest and receives no payment,
    whatever the other debts and the budget. *)
Theorem monthStep_paid_debt_untouched (B : Q) (bs : list Q) :
  getQ bs i <= 0 -> getQ (monthStep rates mins B bs) i = getQ bs i.
Proof.
  intros Hi. unfold monthStep.
  assert (Hacc : forall n l, getQ l i <= 0 ->
                   getQ (accrueLoop rates n l) i = getQ l i).
  { intros n. unfold accrueLoop. generalize (seq 0 n) as idxs.
    induction idxs as [| k idxs IH]; intros l Hl; simpl; [reflexivity |].
    rewrite IH by (rewrite accrueAt_untouched; assumption).
    now apply accrueAt_untouched. }
  assert (Hmin : forall n st, getQ (fst st) i <= 0 ->
                   getQ (fst (payMinLoop mins n st)) i = getQ (fst st) i).
  { intros n. unfold payMinLoop. generalize (seq 0 n) as idxs.
    induction idxs as [| k idxs IH]; intros st Hst; simpl; [reflexivity |].
    rewrite IH by (rewrite payMinAt_untouched; assumption).
    now apply payMinAt_untouched. }
  assert (Hextra : forall st, getQ (fst st) i <= 0 ->
                     getQ (fst (payExtra st)) i = getQ (fst st) i).
  { intros st Hst. unfold payExtra.
    destruct (ltb _ _); [now apply payExtraLoop_untouched | reflexivity]. }
  rewrite Hextra, Hmin; cbn [fst]; rewrite ?Hmin; cbn [fst];
    rewrite ?Hacc; trivial.
Qed.

End Untouched.

Lemma monthStep_paid_debt_untouched_witness :
  getQ (monthStep [2 # 100; 1 # 100] [25; 50] 75 [0; 900]) 0 = 0.
Proof.
  apply (monthStep_paid_debt_untouched [2 # 100; 1 # 100] [25; 50] 0 75
           [0; 900]).
  discriminate.
Defined.

(** ** One debt receives the extra payment *)

Lemma getQ_positive_in_range (l : list Q) (i : nat) :
  0 < getQ l i -> (i < length l)%nat.
Proof.
  intros H. destruct (Nat.lt_ge_cases i (length l)) as [Hi | Hi]; [exact Hi |].
  unfold getQ in H. rewrite nth_overflow in H by exact Hi. lra.
Qed.

Lemma payMinAt_at_most_minimum (mins : list Q) (st : State) (i j : nat) :
  nonneg mins ->
  getQ (fst st) j - getQ mins j <= getQ (fst (payMinAt mins st i)) j
  /\ (i <> j -> getQ (fst (payMinAt mins st i)) j = getQ (fst st) j).
Proof.
  destruct st as [bs budget]. intros Hmins.
  pose proof (getQ_nonneg mins j Hmins) as Hm.
  unfold payMinAt.
  destruct (leb_spec (getQ bs i) 0) as [_ | Hpos]; cbn [fst].
  - split; [lra | reflexivity].
  - split; [| now apply getQ_setQ_ne].
    destruct (Nat.eq_dec i j) as [-> | Hij].
    + rewrite getQ_setQ_eq by now apply getQ_positive_in_range. qsolve.
    + rewrite getQ_setQ_ne by exact Hij. lra.
Qed.

Lemma payMinLoop_at_most_minimum (mins : list Q) (n a : nat) (st : State)
    (j : nat) :
  nonneg mins ->
  let st' := fold_left (payMinAt mins) (seq a n) st in
  getQ (fst st) j - getQ mins j <= getQ (fst st') j
  /\ ((j < a)%nat -> getQ (fst st') j = getQ (fst st) j).
Proof.
  intros Hmins. revert a st.
  induction n as [| n IH]; intros a st; cbn [seq fold_left].
  - split; [| reflexivity].
    pose proof (getQ_nonneg mins j Hmins). lra.
  - destruct (IH (S a) (payMinAt mins st a)) as [H1 H2].
    destruct (payMinAt_at_most_minimum mins st a j Hmins) as [H3 H4].
    cbv zeta in *. split.
    + destruct (Nat.lt_ge_cases j (S a)) as [Hlt | Hge].
      * rewrite H2 by exact Hlt. exact H3.
      * rewrite H4 in H1 by lia. exact H1.
    + intros Hj. rewrite H2 by lia. apply H4. lia.
Qed.

Lemma payExtraLoop_one_debt (idxs : list nat) (st : State) :
  exists i, forall j, j <> i ->
    getQ (fst (payExtraLoop idxs st)) j = getQ (fst st) j.
Proof.
  destruct st as [bs budget].
  induction idxs as [| i idxs IH]; simpl.
  - exists 0%nat. reflexivity.
  - destruct (leb (getQ bs i) 0); [exact IH |].
    exists i. intros j Hj. cbn [fst]. apply getQ_setQ_ne. congruence.
Qed.

(** X5.  In a month all debts but one are paid at most their minimum payment:
    the balance after the month is at least the balance after interest
    less the minimum.  What the extra-payment loop adds goes to a single
    debt, also when that debt needed less than what was left. *)
Theorem monthStep_extra_to_one_debt (rates mins : list Q) (B : Q)
    (bs : list Q) :
  nonneg mins ->
  exists i, forall j, j <> i ->
    getQ (accrueLoop rates (length bs) bs) j - getQ mins j
    <= getQ (monthStep rates mins B bs) j.
Proof.
  intros Hmins. unfold monthStep.
  set (accrued := accrueLoop rates (length bs) bs).
  set (paid := payMinLoop mins (length accrued) (accrued, B)).
  assert (Hextra : exists i, forall j, j <> i ->
            getQ (fst (payExtra paid)) j = getQ (fst paid) j).
  { unfold payExtra. destruct (ltb _ _).
    - apply payExtraLoop_one_debt.
    - exists 0%nat. reflexivity. }
  destruct Hextra as [i Hi]. exists i. intros j Hj.
  rewrite Hi by exact Hj.
  destruct (payMinLoop_at_most_minimum mins (length accrued) 0 (accrued, B)
              j Hmins) as [H _].
  exact H.
Qed.

Lemma monthStep_extra_to_one_debt_witness :
  exists i, forall j, j <> i ->
    getQ (accrueLoop [2 # 100; 1 # 100] 2 [500; 900]) j - getQ [25; 50] j
    <= getQ (monthStep [2 # 100; 1 # 100] [25; 50] 200 [500; 900]) j.
Proof.
  apply (monthStep_extra_to_one_debt [2 # 100; 1 # 100] [25; 50] 200
           [500; 900]).
  repeat constructor; discriminate.
Defined.

End PayoffExtras.

(** * The CSV import *)

Module CsvFacts.
Import Csv.

(** ** Strings *)

Lemma string_app_nil_r (s : string) : (s ++ "")%string = s.
Proof. induction s as [| ch s IH]; simpl; [reflexivity | now rewrite IH]. Qed.

Lemma string_app_assoc (s1 s2 s3 : string) :
  ((s1 ++ s2) ++ s3)%string = (s1 ++ (s2 ++ s3))%string.
Proof.
  induction s1 as [| ch s1 IH]; simpl; [reflexivity | now rewrite IH].
Qed.

Lemma string_app_snoc (s : string) (ch : ascii) (s' : string) :
  ((s ++ String ch "") ++ s')%string = (s ++ String ch s')%string.
Proof. now rewrite string_app_assoc. Qed.

Lemma occurs_app (ch : ascii) (s s' : string) :
  occurs ch (s ++ s')%string = occurs ch s || occurs ch s'.
Proof.
  induction s as [| ch' s IH]; simpl; [reflexivity |].
  rewrite IH. now rewrite orb_assoc.
Qed.

Lemma prefix_spec (c h : string) :
  String.prefix c h = true <-> exists suf, h = (c ++ suf)%string.
Proof.
  revert h. induction c as [| a c IH]; intros h.
  - destruct h; simpl; split; trivial; intros _; eexists; reflexivity.
  - destruct h as [| b h]; simpl.
    + split; [discriminate | intros [suf H]; discriminate H].
    + destruct (ascii_dec a b) as [-> | Hne].
      * rewrite IH. split; intros [suf H]; exists suf.
        -- now rewrite H.
        -- now injection H.
      * split; [discriminate |]. intros [suf H]. injection H as H1 H2.
        congruence.
Qed.

Lemma includes_spec (c h : string) :
  includes c h = true <-> exists pre suf, h = (pre ++ c ++ suf)%string.
Proof.
  induction h as [| b h IH]; cbn [includes].
  - rewrite orb_false_r, prefix_spec. split.
    + intros [suf H]. exists ""%string, suf. exact H.
    + intros (pre & suf & H). destruct pre as [| x pre]; [| discriminate H].
      exists suf. exact H.
  - rewrite orb_true_iff, IH, prefix_spec. split.
    + intros [[suf H] | (pre & suf & H)].
      * exists ""%string, suf. exact H.
      * exists (String b pre), suf. simpl. now rewrite H.
    + intros (pre & suf & H). destruct pre as [| x pre].
      * left. exists suf. exact H.
      * right. simpl in H. injection H as _ H. exists pre, suf. exact H.
Qed.

Lemma includes_refl (c : string) : includes c c = true.
Proof.
  apply includes_spec. exists ""%string, ""%string. simpl.
  now rewrite string_app_nil_r.
Qed.

Lemma truthy_spec (s : string) : truthy s = true <-> s <> ""%string.
Proof.
  unfold truthy. destruct (String.eqb_spec s ""); split; intros H;
    simpl in *; congruence.
Qed.

(** ** The loop of [parseCsvLine], one character at a time *)

Lemma parseFrom_end (result : list string) (current : string)
    (inQuotes : bool) :
  parseFrom "" result current inQuotes = result ++ [current].
Proof. reflexivity. Qed.

Lemma parseFrom_open (rest : string) (result : list string)
    (current : string) :
  parseFrom (String dquote rest) result current false
  = parseFrom rest result current true.
Proof. reflexivity. Qed.

Lemma parseFrom_doubled (rest : string) (result : list string)
    (current : string) :
  parseFrom (String dquote (String dquote rest)) result current true
  = parseFrom rest result (current ++ String dquote "")%string true.
Proof. reflexivity. Qed.

Lemma parseFrom_close (rest : string) (result : list string)
    (current : string) :
  noQuoteAhead rest ->
  parseFrom (String dquote rest) result current true
  = parseFrom rest result current false.
Proof.
  destruct rest as [| ch rest]; [reflexivity |]. intros H.
  cbn [parseFrom]. change (Ascii.eqb dquote dquote) with true. cbv iota.
  unfold noQuoteAhead in H. now rewrite H.
Qed.

Lemma parseFrom_comma (rest : string) (result : list string)
    (current : string) :
  parseFrom (String comma rest) result current false
  = parseFrom rest (result ++ [current]) "" false.
Proof. reflexivity. Qed.

Lemma parseFrom_char (ch : ascii) (rest : string) (result : list string)
    (current : string) (inQuotes : bool) :
  Ascii.eqb ch dquote = false ->
  Ascii.eqb ch comma = false \/ inQuotes = true ->
  parseFrom (String ch rest) result current inQuotes
  = parseFrom rest result (current ++ String ch "")%string inQuotes.
Proof.
  intros Hq H. cbn [parseFrom]. rewrite Hq.
  destruct H as [-> | ->]; [reflexivity |].
  now rewrite andb_false_r.
Qed.

(** ** Joining *)

Lemma joinComma_cons (field : string) (fields : list string) :
  fields <> [] ->
  joinComma (field :: fields)
  = (field ++ String comma (joinComma fields))%string.
Proof. destruct fields; [congruence | reflexivity]. Qed.

Lemma joinComma_last_two (fields : list string) (a b : string) :
  joinComma (fields ++ [a; b])
  = joinComma (fields ++ [(a ++ String comma b)%string]).
Proof.
  induction fields as [| x fields IH]; [reflexivity |].
  rewrite <- !app_comm_cons.
  rewrite !joinComma_cons by (destruct fields; discriminate).
  now rewrite IH.
Qed.

End CsvFacts.

Module CsvExtras.
Import Csv CsvFacts.

(** ** Reading back what a CSV writer wrote *)

Lemma parseFrom_escaped (field rest : string) (result : list string)
    (current : string) :
  noQuoteAhead rest ->
  parseFrom (escapeQuotes field ++ String dquote rest)%string result current
    true
  = parseFrom rest result (current ++ field)%string false.
Proof.
  intros Hrest. revert current.
  induction field as [| ch field IH]; intros current.
  - cbn [escapeQuotes String.append]. rewrite string_app_nil_r.
    now apply parseFrom_close.
  - cbn [escapeQuotes]. destruct (Ascii.eqb ch dquote) eqn:E.
    + apply Ascii.eqb_eq in E. subst ch. cbn [String.append].
      rewrite parseFrom_doubled, IH. now rewrite string_app_snoc.
    + cbn [String.append]. rewrite parseFrom_char by (trivial; now right).
      rewrite IH. now rewrite string_app_snoc.
Qed.

Lemma parseFrom_quoted (fields : list string) (field : string)
    (result : list string) :
  parseFrom (joinComma (map quoteField (field :: fields))) result "" false
  = result ++ field :: fields.
Proof.
  revert field result.
  induction fields as [| field' fields IH]; intros field result.
  - cbn [map joinComma]. unfold quoteField. rewrite parseFrom_open.
    rewrite parseFrom_escaped by exact I. apply parseFrom_end.
  - cbn [map]. rewrite joinComma_cons by discriminate.
    unfold quoteField at 1. cbn [String.append].
    rewrite string_app_assoc. cbn [String.append].
    rewrite parseFrom_open.
    rewrite parseFrom_escaped by reflexivity.
    rewrite parseFrom_comma.
    change (quoteField field' :: map quoteField fields)
      with (map quoteField (field' :: fields)).
    rewrite IH. now rewrite <- app_assoc.
Qed.

(** X18.  When each field is written between double quotes with its own double
    quotes doubled, and the fields are joined with commas, [parseCsvLine]
    gives back the fields, whatever characters they hold (commas and
    quotes included). *)
Theorem parseCsvLine_quoted_round_trip (fields : list string) :
  fields <> [] ->
  parseCsvLine (joinComma (map quoteField fields)) = fields.
Proof.
  destruct fields as [| field fields]; [congruence |]. intros _.
  unfold parseCsvLine. now rewrite parseFrom_quoted.
Qed.

Lemma parseCsvLine_quoted_round_trip_witness :
  parseCsvLine
    (joinComma (map quoteField ["Bitcoin, the coin"; ""; "1,000.50"]))
  = ["Bitcoin, the coin"; ""; "1,000.50"].
Proof.
  apply (parseCsvLine_quoted_round_trip
           ["Bitcoin, the coin"; ""; "1,000.50"]).
  discriminate.
Defined.

(** ** A line without quotes is split at its commas *)

Lemma parseFrom_plain (line : string) (result : list string)
    (current : string) :
  occurs dquote line = false ->
  joinComma (parseFrom line result current false)
  = joinComma (result ++ [(current ++ line)%string]).
Proof.
  revert result current.
  induction line as [| ch line IH]; intros result current Hq.
  - rewrite parseFrom_end. now rewrite string_app_nil_r.
  - cbn [occurs] in Hq. apply orb_false_elim in Hq as [Hch Hline].
    destruct (Ascii.eqb ch comma) eqn:E.
    + apply Ascii.eqb_eq in E. subst ch.
      rewrite parseFrom_comma, IH by exact Hline.
      rewrite <- app_assoc. cbn [app String.append].
      apply joinComma_last_two.
    + rewrite parseFrom_char by (trivial; now left).
      rewrite IH by exact Hline. now rewrite string_app_snoc.
Qed.

Lemma parseFrom_no_comma (line : string) (result : list string)
    (current : string) :
  occurs dquote line = false ->
  Forall (fun field => occurs comma field = false) result ->
  occurs comma current = false ->
  Forall (fun field => occurs comma field = false)
    (parseFrom line result current false).
Proof.
  revert result current.
  induction line as [| ch line IH]; intros result current Hq Hres Hcur.
  - rewrite parseFrom_end. apply Forall_app. split; [exact Hres |].
    now repeat constructor.
  - cbn [occurs] in Hq. apply orb_false_elim in Hq as [Hch Hline].
    destruct (Ascii.eqb ch comma) eqn:E.
    + apply Ascii.eqb_eq in E. subst ch. rewrite parseFrom_comma.
      apply IH; [exact Hline | | reflexivity].
      apply Forall_app. split; [exact Hres |]. now repeat constructor.
    + rewrite parseFrom_char by (trivial; now left).
      apply IH; [exact Hline | exact Hres |].
      rewrite occurs_app, Hcur. cbn [occurs]. now rewrite E.
Qed.

(** X19.  On a line that holds no double quote, [parseCsvLine] is the split at
    the commas: joined with commas the fields give the line back, and no
    field holds a comma. *)
Theorem parseCsvLine_plain_split (line : string) :
  occurs dquote line = false ->
  joinComma (parseCsvLine line) = line
  /\ Forall (fun field => occurs comma field = false) (parseCsvLine line).
Proof.
  intros Hq. unfold parseCsvLine. split.
  - now rewrite parseFrom_plain.
  - apply parseFrom_no_comma; [exact Hq | constructor | reflexivity].
Qed.

Lemma parseCsvLine_plain_split_witness :
  joinComma (parseCsvLine "AAPL,10,,150.25") = "AAPL,10,,150.25"%string
  /\ Forall (fun field => occurs comma field = false)
       (parseCsvLine "AAPL,10,,150.25").
Proof.
  apply (parseCsvLine_plain_split "AAPL,10,,150.25"). reflexivity.
Defined.

(** ** Looking a column up *)

Lemma firstMatch_sound (test : string -> string -> bool)
    (headers candidates : list string) (found : string) :
  firstMatch test headers candidates = Some found ->
  In found headers /\ found <> ""%string
  /\ exists candidate, In candidate candidates /\ test found candidate = true.
Proof.
  induction candidates as [| c candidates IH]; simpl; [discriminate |].
  assert (Hrest : firstMatch test headers candidates = Some found ->
            In found headers /\ found <> ""%string
            /\ exists candidate,
                 (c = candidate \/ In candidate candidates)
                 /\ test found candidate = true).
  { intros H. destruct (IH H) as (H1 & H2 & c' & H3 & H4).
    repeat split; trivial. exists c'. now split; [right |]. }
  destruct (List.find (fun h => test h c) headers) as [h |] eqn:E;
    [| exact Hrest].
  destruct (truthy h) eqn:Ht; [| exact Hrest].
  intros H. injection H as <-. apply find_some in E as [Hin Htest].
  split; [exact Hin |]. split; [now apply truthy_spec |].
  exists c. now split; [left |].
Qed.

Lemma findColumn_includes (headers candidates : list string)
    (found : string) :
  findColumn headers candidates = Some found ->
  In found headers /\ found <> ""%string
  /\ exists candidate,
       In candidate candidates /\ includes candidate found = true.
Proof.
  unfold findColumn.
  destruct (firstMatch _ headers candidates) as [h |] eqn:E.
  - intros H. injection H as <-.
    apply firstMatch_sound in E as (H1 & H2 & c & H3 & H4).
    apply String.eqb_eq in H4. subst c.
    repeat split; trivial. exists h. split; [exact H3 | apply includes_refl].
  - intros H. apply firstMatch_sound in H as (H1 & H2 & c & H3 & H4).
    repeat split; trivial. now exists c.
Qed.

(** X20.  Whatever [findColumn] returns is one of the headers, is not the empty
    string, and contains one of the candidates. *)
Theorem findColumn_sound (headers candidates : list string)
    (found : string) :
  findColumn headers candidates = Some found ->
  In found headers /\ found <> ""%string
  /\ exists candidate pre suf,
       In candidate candidates
       /\ found = (pre ++ candidate ++ suf)%string.
Proof.
  intros H. apply findColumn_includes in H as (H1 & H2 & c & H3 & H4).
  apply includes_spec in H4 as (pre & suf & H4).
  repeat split; trivial. now exists c, pre, suf.
Qed.

Lemma findColumn_sound_witness :
  In "avg price"%string ["symbol"; "avg price"]%string
  /\ "avg price"%string <> ""%string
  /\ exists candidate pre suf,
       In candidate ["cost"; "price"]%string
       /\ "avg price"%string = (pre ++ candidate ++ suf)%string.
Proof.
  apply (findColumn_sound ["symbol"; "avg price"]%string
           ["cost"; "price"]%string "avg price"%string).
  reflexivity.
Defined.

Lemma firstMatch_exact (headers candidates : list string) :
  firstMatch (fun h candidate => String.eqb h candidate) headers candidates
  = List.find (fun c => truthy c && inList c headers) candidates.
Proof.
  induction candidates as [| c candidates IH]; simpl; [reflexivity |].
  destruct (List.find (fun h => String.eqb h c) headers) as [h |] eqn:E.
  - apply find_some in E as [Hin Heq]. apply String.eqb_eq in Heq. subst h.
    assert (Hl : inList c headers = true).
    { unfold inList. apply existsb_exists. exists c.
      split; [exact Hin | apply String.eqb_refl]. }
    rewrite Hl, andb_true_r. destruct (truthy c); [reflexivity | exact IH].
  - assert (Hl : inList c headers = false).
    { unfold inList. apply not_true_is_false. intros H.
      apply existsb_exists in H as (h & Hin & Heq).
      pose proof (find_none _ _ E h Hin) as Hn. simpl in Hn.
      rewrite String.eqb_sym in Hn. congruence. }
    rewrite Hl, andb_false_r. exact IH.
Qed.

(** X21.  An exact match wins over a partial one, in the order of the
    candidates: when some non-empty candidate is itself a header,
    [findColumn] returns the first such candidate, also when an earlier
    candidate is part of another header. *)
Theorem findColumn_exact_first (headers candidates : list string)
    (candidate : string) :
  List.find (fun c => truthy c && inList c headers) candidates
  = Some candidate ->
  findColumn headers candidates = Some candidate.
Proof.
  intros H. unfold findColumn. now rewrite firstMatch_exact, H.
Qed.

Lemma findColumn_exact_first_witness :
  findColumn ["average price"; "cost"]%string ["price"; "cost"]%string
  = Some "cost"%string.
Proof.
  apply (findColumn_exact_first ["average price"; "cost"]%string
           ["price"; "cost"]%string "cost"%string).
  reflexivity.
Defined.

Lemma firstMatch_none (test : string -> string -> bool)
    (headers candidates : list string) :
  (forall h c, test h c = true -> c <> ""%string -> h <> ""%string) ->
  Forall (fun c => c <> ""%string) candidates ->
  firstMatch test headers candidates = None ->
  forall c h, In c candidates -> In h headers -> test h c = false.
Proof.
  intros Htest. induction 1 as [| c candidates Hc _ IH]; simpl.
  - intros _ c h [].
  - destruct (List.find (fun h => test h c) headers) as [h |] eqn:E.
    + apply find_some in E as [_ Hh].
      assert (Ht : truthy h = true)
        by (apply truthy_spec; now apply (Htest h c)).
      rewrite Ht. discriminate.
    + intros Hnone c' h' [<- | Hin] Hh'.
      * exact (find_none _ _ E h' Hh').
      * now apply IH.
Qed.

(** X22.  With candidates that are not empty (as all the candidate lists of the
    importers are), [findColumn] answers [null] exactly when no header
    contains any candidate. *)
Theorem findColumn_none (headers candidates : list string) :
  Forall (fun c => c <> ""%string) candidates ->
  (findColumn headers candidates = None
   <-> forall c h, In c candidates -> In h headers -> includes c h = false).
Proof.
  intros Hc. split.
  - unfold findColumn.
    destruct (firstMatch _ headers candidates) eqn:E; [discriminate |].
    apply firstMatch_none; [| exact Hc].
    intros h c Hinc Hne ->. apply includes_spec in Hinc as (pre & suf & H).
    destruct pre; [| discriminate H]. destruct c; [congruence | discriminate H].
  - intros Hno.
    destruct (findColumn headers candidates) as [h |] eqn:E; [| reflexivity].
    apply findColumn_includes in E.
    destruct E as (Hin & _ & c & Hc' & Hinc).
    rewrite (Hno c h Hc' Hin) in Hinc. discriminate.
Qed.

Lemma findColumn_none_witness :
  findColumn ["date"; "memo"]%string ["price"; "cost"]%string = None
  <-> forall c h,
        In c ["price"; "cost"]%string -> In h ["date"; "memo"]%string ->
        includes c h = false.
Proof.
  apply (findColumn_none ["date"; "memo"]%string ["price"; "cost"]%string).
  repeat constructor; discriminate.
Defined.

End CsvExtras.

(** * Further properties of the insights engines *)

Module EngineExtras.
Import EngineFacts.

(** ** Sorting with a difference of keys *)

Section Sorting.

Context {A : Type}.
Variables (key : A -> Q) (cmp : A -> A -> Q).
Hypothesis cmp_key : forall x y, cmp x y == key x - key y.

Lemma insertSorted_Permutation (x : A) (l : list A) :
  Permutation (x :: l) (insertSorted cmp x l).
Proof.
  induction l as [| y l IH]; simpl; [reflexivity |].
  destruct (ltb 0 (cmp x y)); [| reflexivity].
  rewrite perm_swap. now constructor.
Qed.

Lemma sortBy_Permutation (l : list A) : Permutation l (sortBy cmp l).
Proof.
  induction l as [| x l IH]; simpl; [constructor |].
  rewrite <- insertSorted_Permutation. now constructor.
Qed.

Lemma insertSorted_sorted (x : A) (l : list A) :
  StronglySorted (fun a b => key a <= key b) l ->
  StronglySorted (fun a b => key a <= key b) (insertSorted cmp x l).
Proof.
  induction 1 as [| y l Hl IH Hy]; simpl.
  - repeat constructor.
  - pose proof (cmp_key x y) as Hc.
    destruct (ltb_spec 0 (cmp x y)) as [Hlt | Hge].
    + constructor; [exact IH |].
      eapply Permutation_Forall; [apply insertSorted_Permutation |].
      constructor; [lra | exact Hy].
    + constructor; [now constructor |].
      constructor; [lra |].
      eapply Forall_impl; [exact Hy |]. intros z Hz. simpl in Hz. lra.
Qed.

Lemma sortBy_sorted (l : list A) :
  StronglySorted (fun a b => key a <= key b) (sortBy cmp l).
Proof.
  induction l as [| x l IH]; simpl; [constructor |].
  now apply insertSorted_sorted.
Qed.

Lemma insertSorted_stable (k : Q) (x : A) (l : list A) :
  List.filter (fun a => Qeq_bool (key a) k) (insertSorted cmp x l)
  = List.filter (fun a => Qeq_bool (key a) k) (x :: l).
Proof.
  induction l as [| y l IH]; [reflexivity |].
  cbn [insertSorted]. pose proof (cmp_key x y) as Hc.
  destruct (ltb_spec 0 (cmp x y)) as [Hlt | Hge]; [| reflexivity].
  cbn [List.filter] in *. rewrite IH.
  destruct (Qeq_bool (key x) k) eqn:Ex; [| reflexivity].
  destruct (Qeq_bool (key y) k) eqn:Ey; [| reflexivity].
  apply Qeq_bool_iff in Ex, Ey. lra.
Qed.

Lemma sortBy_stable (k : Q) (l : list A) :
  List.filter (fun a => Qeq_bool (key a) k) (sortBy cmp l)
  = List.filter (fun a => Qeq_bool (key a) k) l.
Proof.
  induction l as [| x l IH]; [reflexivity |].
  cbn [sortBy fold_right]. fold (sortBy cmp l).
  rewrite insertSorted_stable. cbn [List.filter]. now rewrite IH.
Qed.

End Sorting.

Lemma StronglySorted_impl {A : Type} (R R' : A -> A -> Prop) (l : list A) :
  (forall a b, R a b -> R' a b) -> StronglySorted R l -> StronglySorted R' l.
Proof.
  intros HR. induction 1 as [| x l Hl IH Hx]; constructor; [exact IH |].
  eapply Forall_impl; [exact Hx |]. intros b. apply HR.
Qed.

Lemma Qeq_bool_opp (x y : Q) : Qeq_bool x y = Qeq_bool (- x) (- y).
Proof.
  destruct (Qeq_bool x y) eqn:E; symmetry.
  - apply Qeq_bool_iff in E. apply Qeq_bool_iff. lra.
  - apply not_true_is_false. intros H. apply Qeq_bool_iff in H.
    assert (H' : x == y) by lra. apply Qeq_bool_iff in H'. congruence.
Qed.

Lemma sumBy_map {A B : Type} (f : B -> Q) (g : A -> B) (l : list A) :
  sumBy f (map g l) = sumBy (fun x => f (g x)) l.
Proof.
  unfold sumBy. generalize 0 as acc.
  induction l as [| x l IH]; intros acc; simpl; [reflexivity | apply IH].
Qed.

Lemma estimatePayoffMonths_le_cap (debts : list DebtItem.t) (B : Q) :
  (Payoff.estimatePayoffMonths debts B <= 600)%nat.
Proof.
  unfold Payoff.estimatePayoffMonths. destruct (_ || _); [lia |].
  assert (Hcap : Payoff.MAX_MONTHS = 600%nat) by reflexivity.
  revert Hcap. generalize Payoff.MAX_MONTHS as cap. intros cap Hcap.
  pose proof (PayoffFacts.payoffLoop_bounds (Payoff.monthlyRates debts)
                (map DebtItem.minimumPayment debts) B cap 0
                (map DebtItem.balance debts)) as H.
  lia.
Qed.

(** ** The payoff plans *)

(** X7.  The report has payoff plans exactly when there are debts.  Both plans
    list the debts of the table, each once: the avalanche plan from the
    highest rate down, the snowball plan from the lowest balance up, debts
    of equal rate (or balance) in the order of the table.  Both carry the
    sum of the minimum payments as monthly budget and an estimate of at
    most 600 months. *)
Theorem payoff_plans_ordered
    (env : Env) (realEstate : list RealEstateHolding.t)
    (stocks : list StockHolding.t) (crypto : list CryptoHolding.t)
    (retirement : list RetirementAccount.t) (debts : list DebtLiability.t) :
  match debtPayoff (Web.computeInsights env realEstate stocks crypto
                      retirement debts) with
  | None => debts = []
  | Some (av, sn) =>
      debts <> []
      /\ Permutation (map toDebtItem debts) (order av)
      /\ Permutation (map toDebtItem debts) (order sn)
      /\ StronglySorted (fun a b => DebtItem.rate b <= DebtItem.rate a)
           (order av)
      /\ StronglySorted (fun a b => DebtItem.balance a <= DebtItem.balance b)
           (order sn)
      /\ (forall r,
            List.filter (fun d => Qeq_bool (DebtItem.rate d) r) (order av)
            = List.filter (fun d => Qeq_bool (DebtItem.rate d) r)
                (map toDebtItem debts))
      /\ (forall b,
            List.filter (fun d => Qeq_bool (DebtItem.balance d) b) (order sn)
            = List.filter (fun d => Qeq_bool (DebtItem.balance d) b)
                (map toDebtItem debts))
      /\ totalMonthlyMinimum av = sumBy DebtLiability.minimumPayment debts
      /\ totalMonthlyMinimum sn = sumBy DebtLiability.minimumPayment debts
      /\ (monthsToPayoff av <= 600)%nat
      /\ (monthsToPayoff sn <= 600)%nat
  end.
Proof.
  unfold Web.computeInsights. cbn [debtPayoff]. unfold Web.debtPayoff.
  destruct debts as [| d debts']; [reflexivity |].
  cbn [length Nat.ltb Nat.leb]. cbn [order totalMonthlyMinimum monthsToPayoff].
  set (ds := d :: debts').
  split; [discriminate |].
  split; [apply sortBy_Permutation |].
  split; [apply sortBy_Permutation |].
  split.
  { eapply StronglySorted_impl;
      [| apply (sortBy_sorted (fun a => - DebtItem.rate a))].
    - intros a b Hab. simpl in Hab. lra.
    - intros a b. simpl. lra. }
  split.
  { apply (sortBy_sorted DebtItem.balance). intros a b. simpl. lra. }
  split.
  { intros r.
    pose proof (sortBy_stable (fun a => - DebtItem.rate a)
                  (fun a b => DebtItem.rate b - DebtItem.rate a)
                  ltac:(intros a b; simpl; lra) (- r)
                  (Web.debtItems ds)) as H.
    rewrite !(filter_ext (fun d => Qeq_bool (DebtItem.rate d) r)
                (fun d => Qeq_bool (- DebtItem.rate d) (- r)));
      [exact H | |]; intros a; apply Qeq_bool_opp. }
  split.
  { intros b. apply (sortBy_stable DebtItem.balance). intros x y. simpl. lra. }
  split; [apply (sumBy_map DebtItem.minimumPayment toDebtItem) |].
  split; [apply (sumBy_map DebtItem.minimumPayment toDebtItem) |].
  split; apply estimatePayoffMonths_le_cap.
Qed.

(** ** The blocks only push *)

Lemma pushAll_here (ins : list Insight) : exists new, ins = pushAll new ins.
Proof. now exists []. Qed.

Lemma pushAll_push (c s : string) (t : InsightText) (x ins : list Insight) :
  (exists new, x = pushAll new ins) ->
  exists new, push c s t x = pushAll new ins.
Proof.
  intros [new ->]. exists (new ++ [(c, s, t)]).
  unfold pushAll. now rewrite fold_left_app.
Qed.

Lemma pushAll_chain (block : list Insight -> list Insight)
    (x ins : list Insight) :
  pushesOnto block -> (exists new, x = pushAll new ins) ->
  exists new, block x = pushAll new ins.
Proof.
  intros Hblock [new ->]. destruct (Hblock (pushAll new ins)) as [new' ->].
  exists (new ++ new'). unfold pushAll. now rewrite fold_left_app.
Qed.

Lemma pushAll_prefix (new : list (string * string * InsightText))
    (ins : list Insight) :
  exists rest, pushAll new ins = ins ++ rest.
Proof.
  revert ins. induction new as [| e new IH]; intros ins; simpl.
  - exists []. now rewrite app_nil_r.
  - destruct (IH (push (fst (fst e)) (snd (fst e)) (snd e) ins)) as [rest ->].
    unfold push. rewrite <- app_assoc. now eexists.
Qed.

#[local] Hint Unfold
  Web.goodVsBadDebtOverview Web.highInterestWarning Web.minimumPaymentWarning
  Web.annualInterestCost Web.debtPayoffInsights Web.debtAboveReturn
  Web.creditCardWhileInvesting Web.debtToAssetBand Web.diversification
  Web.emergencyBuffer Web.debtFree Web.retirementShare
  Main.yearsToRetirementNote Main.ageAppropriateRisk Main.highEquityExposure
  Main.debtFree : engine_blocks.

Ltac solve_pushesOnto :=
  intros ins; autounfold with engine_blocks; cbv zeta;
  case_conditions; repeat apply pushAll_push; apply pushAll_here.

Section Pushes.

Variable env : Env.
Variable realEstate : list RealEstateHolding.t.
Variable stocks : list StockHolding.t.
Variable crypto : list CryptoHolding.t.
Variable retirement : list RetirementAccount.t.
Variable debts : list DebtLiability.t.
Variable age : option Z.

Lemma Web_pushesOnto_goodVsBadDebtOverview :
  pushesOnto (Web.goodVsBadDebtOverview realEstate debts).
Proof. solve_pushesOnto. Qed.

Lemma Web_pushesOnto_debtPayoffInsights :
  pushesOnto (Web.debtPayoffInsights realEstate stocks crypto retirement debts).
Proof. solve_pushesOnto. Qed.

Lemma Web_pushesOnto_debtAboveReturn :
  pushesOnto (Web.debtAboveReturn env stocks debts).
Proof. solve_pushesOnto. Qed.

Lemma Web_pushesOnto_creditCardWhileInvesting :
  pushesOnto (Web.creditCardWhileInvesting stocks crypto debts).
Proof. solve_pushesOnto. Qed.

Lemma Web_pushesOnto_debtToAssetBand :
  pushesOnto (Web.debtToAssetBand realEstate stocks crypto retirement debts).
Proof. solve_pushesOnto. Qed.

Lemma Web_pushesOnto_diversification :
  pushesOnto (Web.diversification stocks crypto retirement).
Proof. solve_pushesOnto. Qed.

Lemma Web_pushesOnto_emergencyBuffer :
  pushesOnto (Web.emergencyBuffer realEstate stocks crypto debts).
Proof. solve_pushesOnto. Qed.

Lemma Web_pushesOnto_debtFree :
  pushesOnto (Web.debtFree realEstate stocks crypto retirement debts).
Proof. solve_pushesOnto. Qed.

Lemma Web_pushesOnto_retirementShare :
  pushesOnto (Web.retirementShare realEstate stocks crypto retirement debts).
Proof. solve_pushesOnto. Qed.

Lemma Main_pushesOnto_yearsToRetirementNote :
  pushesOnto (Main.yearsToRetirementNote retirement age).
Proof. solve_pushesOnto. Qed.

Lemma Main_pushesOnto_ageAppropriateRisk :
  pushesOnto (Main.ageAppropriateRisk stocks crypto retirement age).
Proof. solve_pushesOnto. Qed.

Lemma Main_pushesOnto_highEquityExposure :
  pushesOnto (Main.highEquityExposure realEstate stocks crypto retirement age).
Proof. solve_pushesOnto. Qed.

Lemma Main_pushesOnto_debtFree :
  pushesOnto (Main.debtFree realEstate stocks crypto retirement debts).
Proof. solve_pushesOnto. Qed.

Lemma sharedBlocks_pushed :
  exists new,
    sharedBlocks env realEstate stocks crypto retirement debts
    = pushAll new (Web.goodVsBadDebtOverview realEstate debts []).
Proof.
  unfold sharedBlocks.
  apply pushAll_chain; [apply Web_pushesOnto_emergencyBuffer |].
  apply pushAll_chain; [apply Web_pushesOnto_diversification |].
  apply pushAll_chain; [apply Web_pushesOnto_debtToAssetBand |].
  apply pushAll_chain; [apply Web_pushesOnto_creditCardWhileInvesting |].
  apply pushAll_chain; [apply Web_pushesOnto_debtAboveReturn |].
  apply pushAll_chain; [apply Web_pushesOnto_debtPayoffInsights |].
  apply pushAll_here.
Qed.

Lemma Web_insights_pushed :
  exists new,
    insights (Web.computeInsights env realEstate stocks crypto retirement
                debts)
    = pushAll new (Web.goodVsBadDebtOverview realEstate debts []).
Proof.
  unfold Web.computeInsights. cbn [insights]. rewrite Web_insights_shared.
  apply pushAll_chain; [apply Web_pushesOnto_retirementShare |].
  apply pushAll_chain; [apply Web_pushesOnto_debtFree |].
  apply sharedBlocks_pushed.
Qed.

Lemma Main_insights_pushed :
  exists new,
    insights (Main.generateInsights env realEstate stocks crypto retirement
                debts age)
    = pushAll new (Web.goodVsBadDebtOverview realEstate debts []).
Proof.
  unfold Main.generateInsights. cbn [insights]. rewrite Main_insights_shared.
  apply pushAll_chain; [apply Web_pushesOnto_retirementShare |].
  apply pushAll_chain; [apply Main_pushesOnto_debtFree |].
  apply pushAll_chain; [apply Main_pushesOnto_highEquityExposure |].
  apply pushAll_chain; [apply Main_pushesOnto_ageAppropriateRisk |].
  apply pushAll_chain; [apply Main_pushesOnto_yearsToRetirementNote |].
  apply sharedBlocks_pushed.
Qed.

End Pushes.

(** ** The overview comes first *)

Lemma sumBy_nonneg {A : Type} (f : A -> Q) (l : list A) :
  Forall (fun x => 0 <= f x) l -> 0 <= sumBy f l.
Proof.
  induction 1 as [| x l Hx _ IH].
  - unfold sumBy. simpl. lra.
  - rewrite PayoffFacts.sumBy_cons. lra.
Qed.

Lemma Forall_filter_keeps {A : Type} (P : A -> Prop) (p : A -> bool)
    (l : list A) :
  Forall P l -> Forall P (List.filter p l).
Proof.
  induction 1 as [| x l Hx _ IH]; simpl; [constructor |].
  destruct (p x); [now constructor | exact IH].
Qed.

Lemma overview_pushed (realEstate : list RealEstateHolding.t)
    (debts : list DebtLiability.t) :
  Forall (fun d => 0 <= DebtLiability.currentBalance d) debts ->
  Forall (fun p => 0 <= RealEstateHolding.mortgageBalance p) realEstate ->
  0 < Web.totalAllObligations realEstate debts ->
  exists sev txt,
    Web.goodVsBadDebtOverview realEstate debts []
    = [mkInsight 1 "debt_payoff" sev txt]
    /\ isOverview txt = true.
Proof.
  intros Hdebts Hre Hpos. unfold Web.goodVsBadDebtOverview.
  assert (Hbad : 0 <= Web.badDebtTotal debts)
    by (apply sumBy_nonneg; now apply Forall_filter_keeps).
  assert (Hgood : 0 <= Web.goodDebtTotal realEstate debts).
  { unfold Web.goodDebtTotal, Web.totalMortgageBalances.
    pose proof (sumBy_nonneg DebtLiability.currentBalance
                  (Web.goodDebtsFromTable debts)
                  ltac:(now apply Forall_filter_keeps)).
    pose proof (sumBy_nonneg RealEstateHolding.mortgageBalance realEstate
                  Hre).
    lra. }
  assert (Hsum : Web.goodDebtTotal realEstate debts + Web.badDebtTotal debts
                 == Web.totalAllObligations realEstate debts).
  { unfold Web.goodDebtTotal, Web.badDebtTotal, Web.totalAllObligations,
      Web.totalDebtsOnly, Web.goodDebtsFromTable, Web.badDebts.
    pose proof (sumBy_filter_split DebtLiability.currentBalance
                  (fun d => Web.isGoodDebt (DebtLiability.debtType d)
                              (DebtLiability.interestRate d)) debts) as H.
    cbv beta in H. lra. }
  destruct (ltb_spec 0 (Web.totalAllObligations realEstate debts));
    [| lra].
  destruct (ltb_spec 0 (Web.badDebtTotal debts)) as [Hb | Hb];
    destruct (ltb_spec 0 (Web.goodDebtTotal realEstate debts)) as [Hg | Hg];
    cbn [andb].
  - now eexists _, _.
  - now eexists _, _.
  - assert (Hz : Qeq_bool (Web.badDebtTotal debts) 0 = true)
      by (apply Qeq_bool_iff; lra).
    rewrite Hz. now eexists _, _.
  - lra.
Qed.

(** X9.  When no balance is negative and something is owed (on the debts or
    on the mortgages), both engines open the report with the
    good-versus-bad-debt overview: the first insight has id 1, category
    ["debt_payoff"] and one of the three overview texts. *)
Theorem overview_comes_first
    (env : Env) (realEstate : list RealEstateHolding.t)
    (stocks : list StockHolding.t) (crypto : list CryptoHolding.t)
    (retirement : list RetirementAccount.t) (debts : list DebtLiability.t)
    (age : option Z) :
  Forall (fun d => 0 <= DebtLiability.currentBalance d) debts ->
  Forall (fun p => 0 <= RealEstateHolding.mortgageBalance p) realEstate ->
  0 < Web.totalAllObligations realEstate debts ->
  exists sev txt,
    isOverview txt = true
    /\ (exists rest,
          insights (Web.computeInsights env realEstate stocks crypto
                      retirement debts)
          = mkInsight 1 "debt_payoff" sev txt :: rest)
    /\ (exists rest,
          insights (Main.generateInsights env realEstate stocks crypto
                      retirement debts age)
          = mkInsight 1 "debt_payoff" sev txt :: rest).
Proof.
  intros Hdebts Hre Hpos.
  destruct (overview_pushed realEstate debts Hdebts Hre Hpos)
    as (sev & txt & Hov & Htxt).
  exists sev, txt. split; [exact Htxt |]. split.
  - destruct (Web_insights_pushed env realEstate stocks crypto retirement
                debts) as [new ->].
    rewrite Hov. destruct (pushAll_prefix new [mkInsight 1 "debt_payoff" sev txt])
      as [rest ->].
    now exists rest.
  - destruct (Main_insights_pushed env realEstate stocks crypto retirement
                debts age) as [new ->].
    rewrite Hov. destruct (pushAll_prefix new [mkInsight 1 "debt_payoff" sev txt])
      as [rest ->].
    now exists rest.
Qed.

Lemma overview_comes_first_witness :
  exists sev txt,
    isOverview txt = true
    /\ (exists rest,
          insights (Web.computeInsights sampleEnv [] [] [] []
                      [DebtLiability.mk "card" credit_card 1000 20 50 None])
          = mkInsight 1 "debt_payoff" sev txt :: rest)
    /\ (exists rest,
          insights (Main.generateInsights sampleEnv [] [] [] []
                      [DebtLiability.mk "card" credit_card 1000 20 50 None]
                      None)
          = mkInsight 1 "debt_payoff" sev txt :: rest).
Proof.
  apply (overview_comes_first sampleEnv [] [] [] []
           [DebtLiability.mk "card" credit_card 1000 20 50 None] None).
  - repeat constructor. discriminate.
  - constructor.
  - reflexivity.
Defined.

(** ** Debt-free, with a mortgage *)

(** X10.  The debt-free insight looks at the debts table only.  With no debt
    in the table, a positive net worth and a mortgage on a property, the
    browser-side report holds both the overview that all debt is good debt
    (the mortgages) and the debt-free insight. *)
Theorem debt_free_despite_mortgage
    (env : Env) (realEstate : list RealEstateHolding.t)
    (stocks : list StockHolding.t) (crypto : list CryptoHolding.t)
    (retirement : list RetirementAccount.t) :
  0 < Web.totalMortgageBalances realEstate ->
  0 < Web.netWorth realEstate stocks crypto retirement [] ->
  let report :=
    insights (Web.computeInsights env realEstate stocks crypto retirement [])
  in
  In (mkInsight 1 "debt_payoff" "positive"
        (OnlyGoodDebt (Web.goodDebtTotal realEstate [])
           (Web.goodDebtMonthly realEstate []))) report
  /\ exists n,
       In (mkInsight n "opportunity" "positive"
             (DebtFree (Web.netWorth realEstate stocks crypto retirement [])))
         report.
Proof.
  intros Hm Hnw report. unfold report, Web.computeInsights. cbn [insights].
  rewrite Web_insights_shared. split.
  - apply Web_keeps_retirementShare, Web_keeps_debtFree.
    unfold sharedBlocks.
    apply Web_keeps_emergencyBuffer, Web_keeps_diversification,
      Web_keeps_debtToAssetBand, Web_keeps_creditCardWhileInvesting,
      Web_keeps_debtAboveReturn, Web_keeps_debtPayoffInsights.
    unfold Web.goodVsBadDebtOverview.
    change (Web.badDebtTotal []) with 0.
    assert (H1 : Web.totalAllObligations realEstate []
                 == Web.totalMortgageBalances realEstate)
      by (unfold Web.totalAllObligations, Web.totalDebtsOnly;
          rewrite sumBy_nil; lra).
    assert (H2 : Web.goodDebtTotal realEstate []
                 == Web.totalMortgageBalances realEstate)
      by (unfold Web.goodDebtTotal, Web.goodDebtsFromTable; cbn [List.filter];
          rewrite sumBy_nil; lra).
    destruct (ltb_spec 0 (Web.totalAllObligations realEstate [])); [| lra].
    destruct (ltb_spec 0 (Web.goodDebtTotal realEstate [])); [| lra].
    cbn. now left.
  - eexists. apply Web_keeps_retirementShare. unfold Web.debtFree.
    destruct (ltb_spec 0 (Web.netWorth realEstate stocks crypto retirement
                            [])); [| lra].
    cbn [length Nat.eqb andb]. apply In_push_new.
Qed.

Lemma debt_free_despite_mortgage_witness :
  let realEstate := [RealEstateHolding.mk 500000 300000 (Some 2000)] in
  let report := insights (Web.computeInsights sampleEnv realEstate [] [] [] [])
  in
  In (mkInsight 1 "debt_payoff" "positive"
        (OnlyGoodDebt (Web.goodDebtTotal realEstate [])
           (Web.goodDebtMonthly realEstate []))) report
  /\ exists n,
       In (mkInsight n "opportunity" "positive"
             (DebtFree (Web.netWorth realEstate [] [] [] []))) report.
Proof.
  apply (debt_free_despite_mortgage sampleEnv
           [RealEstateHolding.mk 500000 300000 (Some 2000)] [] [] []);
    reflexivity.
Defined.

(** ** The snapshot of the scheduler and the report *)

(** X13.  The snapshot the price scheduler stores and the report of the
    engine are computed from the tables by the same operations in the same
    order: same net worth, same total of the assets (the properties
    counted for their equity), same debts, to the last bit. *)
Theorem snapshot_matches_report
    (env : Env) (realEstate : list RealEstateHolding.t)
    (stocks : list StockHolding.t) (crypto : list CryptoHolding.t)
    (retirement : list RetirementAccount.t) (debts : list DebtLiability.t) :
  let values :=
    Scheduler.computePortfolioValues realEstate stocks crypto retirement
      debts in
  let m :=
    metrics (Web.computeInsights env realEstate stocks crypto retirement
               debts) in
  Scheduler.totalNetWorth values = netWorth m
  /\ Scheduler.realEstateValue values + Scheduler.stocksValue values
     + Scheduler.cryptoValue values + Scheduler.retirementValue values
     = totalAssets m
  /\ Scheduler.debtsValue values = totalDebts m.
Proof.
  intros values m.
  unfold values, m, Scheduler.computePortfolioValues, Web.computeInsights.
  cbn [metrics netWorth totalAssets totalDebts Scheduler.totalNetWorth
       Scheduler.realEstateValue Scheduler.stocksValue Scheduler.cryptoValue
       Scheduler.retirementValue Scheduler.debtsValue].
  repeat split.
Qed.

(** ** The age-based insights *)

Ltac solve_not_age_based :=
  intros ins Hins; autounfold with engine_blocks; cbv zeta;
  case_conditions;
  repeat (apply Forall_push; [| intros n; exact I]);
  exact Hins.

Ltac through_block :=
  match goal with
  | |- Forall ?P (?block ?ins) =>
      let H := fresh in
      assert (H : pushesOnly P block) by solve_not_age_based;
      apply (H ins); clear H
  end.

Section AgeRules.

Variable env : Env.
Variable realEstate : list RealEstateHolding.t.
Variable stocks : list StockHolding.t.
Variable crypto : list CryptoHolding.t.
Variable retirement : list RetirementAccount.t.
Variable debts : list DebtLiability.t.
Variable age : option Z.

Lemma yearsToRetirementNote_rule :
  pushesOnly (ageRule age) (Main.yearsToRetirementNote retirement age).
Proof.
  intros ins Hins. unfold Main.yearsToRetirementNote.
  destruct (Main.truthyAge age) as [a |] eqn:Ea; [| exact Hins].
  destruct (ltb _ _); [| exact Hins]. cbv zeta.
  destruct (0 <? Z.max (65 - a) 0)%Z eqn:Ey; [| exact Hins].
  apply Z.ltb_lt in Ey.
  apply Forall_push; [exact Hins |]. intros n. unfold ageRule. cbn [text].
  rewrite Ea. repeat split; lia.
Qed.

Lemma ageAppropriateRisk_rule :
  pushesOnly (ageRule age)
    (Main.ageAppropriateRisk stocks crypto retirement age).
Proof.
  intros ins Hins. unfold Main.ageAppropriateRisk.
  destruct (Main.truthyAge age) as [a |] eqn:Ea; [| exact Hins].
  destruct (a <? 35)%Z eqn:Ey; [| exact Hins]. apply Z.ltb_lt in Ey.
  cbv zeta. case_conditions; try exact Hins.
  apply Forall_push; [exact Hins |]. intros n. unfold ageRule. cbn [text].
  rewrite Ea. now split.
Qed.

Lemma highEquityExposure_rule :
  pushesOnly (ageRule age)
    (Main.highEquityExposure realEstate stocks crypto retirement age).
Proof.
  intros ins Hins. unfold Main.highEquityExposure.
  destruct (Main.truthyAge age) as [a |] eqn:Ea; [| exact Hins].
  destruct (50 <=? a)%Z eqn:Ey; [| exact Hins]. apply Z.leb_le in Ey.
  cbv zeta. case_conditions; try exact Hins;
    (apply Forall_push; [exact Hins |]; intros n; unfold ageRule; cbn [text];
     rewrite Ea; now split).
Qed.

Lemma Main_insights_ageRule :
  Forall (ageRule age)
    (insights (Main.generateInsights env realEstate stocks crypto retirement
                 debts age)).
Proof.
  unfold Main.generateInsights. cbn [insights]. rewrite Main_insights_shared.
  through_block. through_block.
  apply highEquityExposure_rule, ageAppropriateRisk_rule,
    yearsToRetirementNote_rule.
  unfold sharedBlocks. repeat through_block. constructor.
Qed.

End AgeRules.

(** X14.  Every age-based insight of the main-process engine carries the age
    of the settings, and that age is not 0: the years-to-retirement note
    is for an age under 65 and counts [65 - age] years, the note on
    age-appropriate risk is for an age under 35, and the warning on equity
    exposure for an age of 50 or more, so that the last two never come
    together.  Without an age, or with the age 0, the report holds no
    age-based insight. *)
Theorem age_based_insights_follow_age
    (env : Env) (realEstate : list RealEstateHolding.t)
    (stocks : list StockHolding.t) (crypto : list CryptoHolding.t)
    (retirement : list RetirementAccount.t) (debts : list DebtLiability.t)
    (age : option Z) :
  let report :=
    insights (Main.generateInsights env realEstate stocks crypto retirement
                debts age) in
  Forall (ageRule age) report
  /\ (forall i j a a' pct pct',
        In i report -> In j report ->
        text i = AgeAppropriateRisk a pct ->
        text j = HighEquityExposure a' pct' -> False)
  /\ (age = None \/ age = Some 0%Z ->
      Forall (fun i => isAgeBased (text i) = false) report).
Proof.
  intros report.
  pose proof (Main_insights_ageRule env realEstate stocks crypto retirement
                debts age) as H.
  fold report in H. split; [exact H |]. rewrite List.Forall_forall in H. split.
  - intros i j a a' pct pct' Hi Hj Ei Ej.
    pose proof (H i Hi) as Pi. pose proof (H j Hj) as Pj.
    unfold ageRule in Pi, Pj. rewrite Ei in Pi. rewrite Ej in Pj.
    destruct Pi as [E1 L1], Pj as [E2 L2]. rewrite E1 in E2.
    injection E2 as ->. lia.
  - intros Hage. apply List.Forall_forall. intros i Hi.
    pose proof (H i Hi) as Pi. unfold ageRule in Pi.
    assert (Hn : Main.truthyAge age = None)
      by (destruct Hage as [-> | ->]; reflexivity).
    rewrite Hn in Pi.
    destruct (text i); try reflexivity; destruct Pi as [Pi _]; discriminate.
Qed.

End EngineExtras.
